(** * WordpressMediaScraper: the paginators and the orchestrator of
      [download_wp_media.py], embedded and verified.

    The HTTP endpoint is an arbitrary deterministic state machine
    [requests_get]; the two [while True] loops are run with a fuel
    counter and report whether they left the loop ([finished]). *)

From stdpp Require Import base gmap sets list strings.
From Stdlib Require Import Ascii ZArith Lia.

Local Open Scope Z_scope.
Set Warnings "-clear-no-such-hyp".

(** ** Data model *)

(** A JSON object of either collection, reduced to the four keys the
    program reads: [item.get("id")], [item.get("source_url")],
    [item.get("date")] and [post.get("content", {}).get("rendered", "")].
    [None] is Python's [None] (key absent or JSON null). *)
Record item := Item {
  item_id : option Z;
  item_source_url : option string;
  item_date : option string;
  item_rendered : string
}.

Inductive api := MEDIA_API | POSTS_API.

(** What [requests.get] does: it raises, or it returns a response with a
    status code and (read only on a 200) the decoded JSON list. *)
Inductive response :=
  | Raised
  | Reply (status_code : Z) (json : list item).

(** One request of a paginator together with what came back. *)
Record exchange := Exchange {
  ex_page : Z;
  ex_per_page : Z;
  ex_reply : response
}.

Definition INITIAL_PER_PAGE : Z := 100.
Definition MIN_PER_PAGE : Z := 1.

(** The local variables of [fetch_all_media_items]. *)
Record pstate := PState {
  page_num : Z;
  per_page : Z;
  all_seen_ids : gset (option Z);
  all_items : list item
}.

(** The local variables of [fetch_all_posts]; its [per_page] is never
    assigned after its initialisation. *)
Record qstate := QState {
  q_page_num : Z;
  all_posts : list item
}.

(** How an iteration of a [while True] loop ends. *)
Inductive control (St : Type) :=
  | Continue (st : St)
  | Break (st : St).
Arguments Continue {St} st.
Arguments Break {St} st.

(** Outcome of running a loop on an endpoint with states [S]: whether it
    left the loop before the fuel ran out, its variables, the endpoint's
    state and the requests made, oldest first. *)
Record run (S St : Type) := Run {
  finished : bool;
  final : St;
  world : S;
  trace : list exchange
}.
Arguments Run {S St} _ _ _ _.
Arguments finished {S St} _.
Arguments final {S St} _.
Arguments world {S St} _.
Arguments trace {S St} _.

Definition sent {S St} (e : exchange) (r : run S St) : run S St :=
  Run (finished r) (final r) (world r) (e :: trace r).

(** What [main] does that can be observed: entering a paginator, a
    request to an endpoint, a call of [download_file]. *)
Inductive event :=
  | Enter (a : api)
  | Request (a : api) (page per_page : Z)
  | Download (url date_str : string).

Definition is_400 (e : exchange) : Prop :=
  ∃ data, ex_reply e = Reply 400 data.

Definition is_page (e : exchange) : Prop :=
  ∃ data, ex_reply e = Reply 200 data ∧ data ≠ [].

(** ** Python values, exceptions and strings *)

Inductive exn := ValueError | AttributeError.

Inductive result (A : Type) :=
  | Ok (a : A)
  | Raise (e : exn).
Arguments Ok {A} a.
Arguments Raise {A} e.

(** The arguments [get_date_subfolder] can be handed: a decoded JSON
    scalar.  Only [PyStr] has a [replace] method. *)
Inductive pyval :=
  | PyNone
  | PyBool (b : bool)
  | PyInt (n : Z)
  | PyStr (s : string).

Definition chars (s : string) : list ascii := String.list_ascii_of_string s.
Definition str (l : list ascii) : string := String.string_of_list_ascii l.

(** [s.startswith(p)] *)
Definition startswith (p s : string) : bool := String.prefix p s.

(** [s.replace(c, "")] for a one-character [c]. *)
Definition remove_char (c : ascii) (s : string) : string :=
  str (filter (λ x, x ≠ c) (chars s)).

(** [x or default] on an optional string: [None] and [""] are falsy. *)
Definition or_str (x : option string) (default : string) : string :=
  match x with
  | Some s => if String.eqb s "" then default else s
  | None => default
  end.

(** ** [datetime.fromisoformat] and [strftime("%Y-%m-%d")]

    Library functions, embedded from their documentation: the accepted
    format is [YYYY-MM-DD[*HH[:MM[:SS[.fff[fff]]]][+HH:MM[:SS[.ffffff]]]]]
    where [*] is any single character, every field must be in range, and
    any other string raises [ValueError] (the format of Python 3.7 to
    3.10; later releases accept further ISO 8601 spellings and still
    raise nothing but [ValueError] on a string). *)

Record datetime := DateTime {
  year : Z; month : Z; day : Z;
  hour : Z; minute : Z; second : Z; microsecond : Z;
  utcoffset : option Z
}.

Definition is_digit (c : ascii) : bool :=
  let n := nat_of_ascii c in (48 <=? n)%nat && (n <=? 57)%nat.

Definition digit_val (c : ascii) : Z := Z.of_nat (nat_of_ascii c) - 48.

Definition digit_char (n : Z) : ascii :=
  ascii_of_nat (48 + Z.to_nat (n `mod` 10)).

Fixpoint parse_digits (n : nat) (acc : Z) (s : list ascii)
    : option (Z * list ascii) :=
  match n with
  | O => Some (acc, s)
  | Datatypes.S n' =>
      match s with
      | c :: s' =>
          if is_digit c then parse_digits n' (10 * acc + digit_val c) s'
          else None
      | [] => None
      end
  end.

Definition expect (c : ascii) (s : list ascii) : option (list ascii) :=
  match s with
  | x :: s' => if Ascii.eqb x c then Some s' else None
  | [] => None
  end.

Definition parse_isoformat_date (s : list ascii)
    : option (Z * Z * Z * list ascii) :=
  '(y, s) ← parse_digits 4 0 s;
  s ← expect "-" s;
  '(m, s) ← parse_digits 2 0 s;
  s ← expect "-" s;
  '(d, s) ← parse_digits 2 0 s;
  Some (y, m, d, s).

(** [.fff] or [.ffffff], in microseconds. *)
Definition parse_fraction (s : list ascii) : option Z :=
  if decide (length s = 3%nat) then
    '(f, _) ← parse_digits 3 0 s; Some (f * 1000)
  else if decide (length s = 6%nat) then
    '(f, _) ← parse_digits 6 0 s; Some f
  else None.

(** [HH[:MM[:SS[.fff[fff]]]]], the whole of [s]. *)
Definition parse_hh_mm_ss_ff (s : list ascii) : option (Z * Z * Z * Z) :=
  '(hh, s) ← parse_digits 2 0 s;
  match s with
  | [] => Some (hh, 0, 0, 0)
  | c :: s =>
      if Ascii.eqb c ":" then
        '(mm, s) ← parse_digits 2 0 s;
        match s with
        | [] => Some (hh, mm, 0, 0)
        | c :: s =>
            if Ascii.eqb c ":" then
              '(ss, s) ← parse_digits 2 0 s;
              match s with
              | [] => Some (hh, mm, ss, 0)
              | c :: s =>
                  if Ascii.eqb c "." then
                    us ← parse_fraction s; Some (hh, mm, ss, us)
                  else None
              end
            else None
        end
      else None
  end.

Definition is_sign (c : ascii) : bool := Ascii.eqb c "+" || Ascii.eqb c "-".

(** Splits the time string at its first sign character. *)
Fixpoint split_tz (s : list ascii) : list ascii * option (ascii * list ascii) :=
  match s with
  | [] => ([], None)
  | c :: s' =>
      if is_sign c then ([], Some (c, s'))
      else let '(t, z) := split_tz s' in (c :: t, z)
  end.

Definition DAY_US : Z := 24 * 3600 * 1000000.

(** The offset of a zone string [HH:MM], [HH:MM:SS] or [HH:MM:SS.ffffff],
    in microseconds; it must be strictly within a day. *)
Definition parse_tz (sign : ascii) (s : list ascii) : option Z :=
  let n := length s in
  if decide (n = 5%nat ∨ n = 8%nat ∨ n = 15%nat) then
    '(hh, mm, ss, us) ← parse_hh_mm_ss_ff s;
    let off := ((hh * 3600 + mm * 60 + ss) * 1000000 + us) in
    if off <? DAY_US then
      Some (if Ascii.eqb sign "-" then - off else off)
    else None
  else None.

Definition parse_isoformat_time (s : list ascii)
    : option (Z * Z * Z * Z * option Z) :=
  let '(t, z) := split_tz s in
  '(hh, mm, ss, us) ← parse_hh_mm_ss_ff t;
  match z with
  | None => Some (hh, mm, ss, us, None)
  | Some (sign, zs) => off ← parse_tz sign zs; Some (hh, mm, ss, us, Some off)
  end.

Definition is_leap (y : Z) : bool :=
  (y `mod` 4 =? 0) && (negb (y `mod` 100 =? 0) || (y `mod` 400 =? 0)).

Definition days_in_month (y m : Z) : Z :=
  if m =? 2 then (if is_leap y then 29 else 28)
  else if (m =? 4) || (m =? 6) || (m =? 9) || (m =? 11) then 30
  else 31.

Definition valid_date (y m d : Z) : bool :=
  (1 <=? y) && (y <=? 9999) && (1 <=? m) && (m <=? 12) &&
  (1 <=? d) && (d <=? days_in_month y m).

Definition valid_time (hh mm ss : Z) : bool :=
  (hh <=? 23) && (mm <=? 59) && (ss <=? 59).

Definition parse_isoformat (s : list ascii) : option datetime :=
  '(y, m, d, rest) ← parse_isoformat_date s;
  '(hh, mm, ss, us, tz) ←
     match rest with
     | [] => Some (0, 0, 0, 0, None)
     | _sep :: t => parse_isoformat_time t
     end;
  if valid_date y m d && valid_time hh mm ss
  then Some (DateTime y m d hh mm ss us tz)
  else None.

Definition fromisoformat (s : string) : result datetime :=
  match parse_isoformat (chars s) with
  | Some dt => Ok dt
  | None => Raise ValueError
  end.

Definition pad2 (n : Z) : list ascii :=
  [digit_char (n `div` 10); digit_char n].

Definition pad4 (n : Z) : list ascii :=
  [digit_char (n `div` 1000); digit_char (n `div` 100);
   digit_char (n `div` 10); digit_char n].

(** [%Y] of a year from 0 to 9999 as the C library of Linux prints it:
    the decimal number, without leading zeros. *)
Definition year_digits (y : Z) : list ascii :=
  if y <? 10 then [digit_char y]
  else if y <? 100 then [digit_char (y `div` 10); digit_char y]
  else if y <? 1000 then
    [digit_char (y `div` 100); digit_char (y `div` 10); digit_char y]
  else pad4 y.

(** [dt.strftime("%Y-%m-%d")] on Linux: [%m] and [%d] have two digits,
    the year has as many as it needs (other C libraries pad it to
    four). *)
Definition strftime_Ymd (dt : datetime) : string :=
  str (year_digits (year dt) ++
       "-"%char :: pad2 (month dt) ++ "-"%char :: pad2 (day dt)).

(** ** [get_date_subfolder] *)

(** [try: ... except ValueError: return "unknown-date"]: only a
    [ValueError] is caught, anything else propagates. *)
Definition except_ValueError {A} (body : result A) (handler : A) : result A :=
  match body with
  | Raise ValueError => Ok handler
  | other => other
  end.

Definition get_date_subfolder (date_str : pyval) : result string :=
  except_ValueError
    (match date_str with
     | PyStr s =>
         match fromisoformat (remove_char "Z" s) with
         | Ok dt => Ok (strftime_Ymd dt)
         | Raise e => Raise e
         end
     | _ => Raise AttributeError
     end)
    "unknown-date".

(** The shape [YYYY-MM-DD]. *)
Definition is_bucket (b : string) : bool :=
  match chars b with
  | [y1; y2; y3; y4; d1; m1; m2; d2; a1; a2] =>
      forallb is_digit [y1; y2; y3; y4; m1; m2; a1; a2] &&
      Ascii.eqb d1 "-" && Ascii.eqb d2 "-"
  | _ => false
  end.

(** ** [urllib.parse.urljoin]

    Library function, embedded from its algorithm (RFC 3986 reference
    resolution as [urllib.parse] performs it): both arguments are parsed
    into scheme, netloc, path, params, query and fragment, the
    reference's path is merged with the base's and its dot segments are
    removed, and the parts are put together again.  The library's
    clean-up of control characters and its checks of bracketed hosts are
    left out. *)

Definition is_alpha (c : ascii) : bool :=
  let n := nat_of_ascii c in
  ((65 <=? n)%nat && (n <=? 90)%nat) || ((97 <=? n)%nat && (n <=? 122)%nat).

Definition lower (c : ascii) : ascii :=
  let n := nat_of_ascii c in
  if ((65 <=? n)%nat && (n <=? 90)%nat) then ascii_of_nat (n + 32) else c.

Definition is_char (c x : ascii) : bool := Ascii.eqb x c.

Definition scheme_char (c : ascii) : bool :=
  is_alpha c || is_digit c || is_char "+" c || is_char "-" c || is_char "." c.

Definition uses_relative : list string :=
  [""; "ftp"; "http"; "gopher"; "nntp"; "imap"; "wais"; "file"; "https";
   "shttp"; "mms"; "prospero"; "rtsp"; "rtsps"; "rtspu"; "sftp"; "svn";
   "svn+ssh"; "ws"; "wss"]%string.

Definition uses_netloc : list string :=
  [""; "ftp"; "http"; "gopher"; "nntp"; "telnet"; "imap"; "wais"; "file";
   "mms"; "https"; "shttp"; "snews"; "prospero"; "rtsp"; "rtsps"; "rtspu";
   "rsync"; "svn"; "svn+ssh"; "sftp"; "nfs"; "git"; "git+ssh"; "ws"; "wss";
   "itms-services"]%string.

Definition uses_params : list string :=
  [""; "ftp"; "hdl"; "prospero"; "http"; "imap"; "https"; "shttp"; "rtsp";
   "rtsps"; "rtspu"; "sip"; "sips"; "mms"; "sftp"; "tel"]%string.

Definition among (l : list string) (s : list ascii) : bool :=
  bool_decide (str s ∈ l).

(** The longest prefix without a character satisfying [p], and the rest. *)
Fixpoint break_at (p : ascii → bool) (s : list ascii)
    : list ascii * list ascii :=
  match s with
  | [] => ([], [])
  | c :: s' =>
      if p c then ([], s)
      else let '(a, b) := break_at p s' in (c :: a, b)
  end.

(** [a, b = s.split(c, 1)], with [b = ""] when [c] does not occur. *)
Definition split_once (c : ascii) (s : list ascii) : list ascii * list ascii :=
  let '(a, b) := break_at (is_char c) s in (a, tail b).

(** [s.split("/")] *)
Fixpoint split_slash (s : list ascii) : list (list ascii) :=
  match s with
  | [] => [[]]
  | c :: s' =>
      match split_slash s' with
      | seg :: segs =>
          if is_char "/" c then [] :: seg :: segs else (c :: seg) :: segs
      | [] => [[c]]
      end
  end.

(** ["/".join(segs)] *)
Fixpoint join_slash (segs : list (list ascii)) : list ascii :=
  match segs with
  | [] => []
  | [seg] => seg
  | seg :: segs' => seg ++ "/"%char :: join_slash segs'
  end.

Record url_parts := UrlParts {
  u_scheme : list ascii;
  u_netloc : list ascii;
  u_path : list ascii;
  u_params : list ascii;
  u_query : list ascii;
  u_fragment : list ascii
}.

Definition split_scheme (url default : list ascii) : list ascii * list ascii :=
  match break_at (is_char ":") url with
  | (c0 :: pre, _ :: rest) =>
      if is_alpha c0 && forallb scheme_char (c0 :: pre)
      then (map lower (c0 :: pre), rest)
      else (default, url)
  | _ => (default, url)
  end.

Definition split_netloc (url : list ascii) : list ascii * list ascii :=
  match url with
  | c1 :: c2 :: rest =>
      if is_char "/" c1 && is_char "/" c2 then
        break_at (λ c, is_char "/" c || is_char "?" c || is_char "#" c) rest
      else ([], url)
  | _ => ([], url)
  end.

(** Parameters are cut from the last path segment at its first [;]. *)
Definition split_params (path : list ascii) : list ascii * list ascii :=
  let '(last_rev, dir_rev) := break_at (is_char "/") (rev path) in
  let '(seg, params) := break_at (is_char ";") (rev last_rev) in
  match params with
  | [] => (path, [])
  | _ :: ps => (rev dir_rev ++ seg, ps)
  end.

Definition urlparse (url default : list ascii) : url_parts :=
  let '(scheme, url) := split_scheme url default in
  let '(netloc, url) := split_netloc url in
  let '(url, fragment) := split_once "#" url in
  let '(url, query) := split_once "?" url in
  let '(path, params) :=
    if among uses_params scheme then split_params url else (url, []) in
  UrlParts scheme netloc path params query fragment.

Definition nonempty (s : list ascii) : bool :=
  match s with [] => false | _ => true end.

Definition urlunparse (u : url_parts) : list ascii :=
  let url := match u_params u with
             | [] => u_path u
             | ps => u_path u ++ ";"%char :: ps
             end in
  let url :=
    if nonempty (u_netloc u) ||
       (nonempty (u_scheme u) && among uses_netloc (u_scheme u) &&
        negb (bool_decide (take 2 url = ["/"; "/"]%char)))
    then
      let url := match url with
                 | [] => []
                 | c :: _ => if is_char "/" c then url else "/"%char :: url
                 end in
      "/"%char :: "/"%char :: u_netloc u ++ url
    else url in
  let url := match u_scheme u with
             | [] => url
             | sc => sc ++ ":"%char :: url
             end in
  let url := match u_query u with
             | [] => url
             | q => url ++ "?"%char :: q
             end in
  match u_fragment u with
  | [] => url
  | f => url ++ "#"%char :: f
  end.

(** [segments[1:-1] = filter(None, segments[1:-1])] *)
Definition drop_inner_empty (segs : list (list ascii)) : list (list ascii) :=
  match segs with
  | first :: (_ :: _) as rest =>
      first :: filter (λ seg, seg ≠ []) (removelast rest) ++ [List.last rest []]
  | _ => segs
  end.

(** The loop over the segments: [..] pops (an empty stack stays empty),
    [.] is skipped, anything else is pushed. *)
Definition resolve_dots (segs : list (list ascii)) : list (list ascii) :=
  foldl (λ resolved seg,
           if bool_decide (seg = ["."; "."]%char) then removelast resolved
           else if bool_decide (seg = ["."]%char) then resolved
           else resolved ++ [seg]) [] segs.

Definition merge_paths (bpath path : list ascii) : list ascii :=
  let base_parts := split_slash bpath in
  let base_parts := if nonempty (List.last base_parts [])
                    then removelast base_parts else base_parts in
  let segments :=
    match path with
    | c :: _ =>
        if is_char "/" c then split_slash path
        else drop_inner_empty (base_parts ++ split_slash path)
    | [] => drop_inner_empty (base_parts ++ split_slash path)
    end in
  let resolved := resolve_dots segments in
  let last_seg := List.last segments [] in
  let resolved :=
    if bool_decide (last_seg = ["."]%char ∨ last_seg = ["."; "."]%char)
    then resolved ++ [[]] else resolved in
  match join_slash resolved with
  | [] => ["/"%char]
  | p => p
  end.

Definition urljoin_parts (base url : list ascii) : list ascii :=
  let b := urlparse base [] in
  let u := urlparse url (u_scheme b) in
  if negb (bool_decide (u_scheme u = u_scheme b)) ||
     negb (among uses_relative (u_scheme u))
  then url
  else if among uses_netloc (u_scheme u) && nonempty (u_netloc u)
  then urlunparse u
  else
    let netloc := if among uses_netloc (u_scheme u)
                  then u_netloc b else u_netloc u in
    if negb (nonempty (u_path u)) && negb (nonempty (u_params u)) then
      urlunparse (UrlParts (u_scheme u) netloc (u_path b) (u_params b)
                    (if nonempty (u_query u) then u_query u else u_query b)
                    (u_fragment u))
    else
      urlunparse (UrlParts (u_scheme u) netloc
                    (merge_paths (u_path b) (u_path u))
                    (u_params u) (u_query u) (u_fragment u)).

Definition urljoin (base url : string) : string :=
  if String.eqb base "" then url
  else if String.eqb url "" then base
  else str (urljoin_parts (chars base) (chars url)).

(** ** The primary paginator, [fetch_all_media_items] *)

(** Body of [for item in data]: the accumulator holds [all_items],
    [all_seen_ids] and [new_page_ids]. *)
Definition visit (acc : list item * gset (option Z) * list (option Z))
    (it : item) : list item * gset (option Z) * list (option Z) :=
  let '(items, seen, new_page_ids) := acc in
  let media_id := item_id it in
  if decide (media_id ∈ seen) then acc
  else (items ++ [it], {[media_id]} ∪ seen, new_page_ids ++ [media_id]).

Definition scan_page (data : list item) (items : list item)
    (seen : gset (option Z)) : list item * gset (option Z) * list (option Z) :=
  foldl visit (items, seen, []) data.

(** Body of the [while True] loop once the response [r] is in. *)
Definition media_body (r : response) (st : pstate) : control pstate :=
  match r with
  | Raised => Break st
  | Reply code data =>
      if code =? 400 then
        if per_page st >? MIN_PER_PAGE then
          Continue (PState (page_num st)
                           (Z.max MIN_PER_PAGE (per_page st `div` 2))
                           (all_seen_ids st) (all_items st))
        else Break st
      else if code =? 200 then
        match data with
        | [] => Break st
        | _ =>
            let '(items, seen, new_page_ids) :=
              scan_page data (all_items st) (all_seen_ids st) in
            match new_page_ids with
            | [] => Break (PState (page_num st) (per_page st) seen items)
            | _ => Continue (PState (page_num st + 1) (per_page st) seen items)
            end
        end
      else Break st
  end.

(** ** The secondary paginator, [fetch_all_posts] *)

Definition posts_per_page : Z := 20.

Definition posts_body (r : response) (st : qstate) : control qstate :=
  match r with
  | Raised => Break st
  | Reply code data =>
      if code =? 400 then Break st
      else if code =? 200 then
        match data with
        | [] => Break st
        | _ => Continue (QState (q_page_num st + 1) (all_posts st ++ data))
        end
      else Break st
  end.

Definition request_of (a : api) (e : exchange) : event :=
  Request a (ex_page e) (ex_per_page e).

Section Endpoint.

Context {S : Type}.
Variable requests_get : S → api → Z → Z → response * S.

Fixpoint media_loop (fuel : nat) (w : S) (st : pstate) : run S pstate :=
  match fuel with
  | O => Run false st w []
  | Datatypes.S fuel' =>
      let '(r, w') := requests_get w MEDIA_API (page_num st) (per_page st) in
      let e := Exchange (page_num st) (per_page st) r in
      match media_body r st with
      | Break st' => Run true st' w' [e]
      | Continue st' => sent e (media_loop fuel' w' st')
      end
  end.

Definition media_start : pstate := PState 1 INITIAL_PER_PAGE ∅ [].

Definition fetch_all_media_items (fuel : nat) (w : S) : run S pstate :=
  media_loop fuel w media_start.

Fixpoint posts_loop (fuel : nat) (w : S) (st : qstate) : run S qstate :=
  match fuel with
  | O => Run false st w []
  | Datatypes.S fuel' =>
      let '(r, w') := requests_get w POSTS_API (q_page_num st) posts_per_page in
      let e := Exchange (q_page_num st) posts_per_page r in
      match posts_body r st with
      | Break st' => Run true st' w' [e]
      | Continue st' => sent e (posts_loop fuel' w' st')
      end
  end.

Definition posts_start : qstate := QState 1 [].

Definition fetch_all_posts (fuel : nat) (w : S) : run S qstate :=
  posts_loop fuel w posts_start.

(** ** The markup extractor, [parse_images_from_posts] *)

Variable SITE_URL : string.

(** [[img["src"] for img in BeautifulSoup(html, "html.parser")
      .find_all("img", src=True)]], the HTML parser being a library. *)
Variable img_srcs : string → list string.

(** The [if]/[elif] on [img_url] inside the loop over the images. *)
Definition resolve_img_url (img_url : string) : string :=
  if startswith "//" img_url then String.append "https:" img_url
  else if startswith "/" img_url then urljoin SITE_URL img_url
  else img_url.

Definition parse_images_from_posts (posts : list item)
    : list (string * string) :=
  flat_map
    (λ post,
       let date_str := or_str (item_date post) "unknown-date" in
       map (λ img_url, (resolve_img_url img_url, date_str))
           (img_srcs (item_rendered post)))
    posts.

(** ** The orchestrator, [main] *)

(** The [else] branch: items without a truthy [source_url] are passed
    over, an absent date becomes [""]. *)
Definition media_downloads (media_items : list item) : list event :=
  flat_map
    (λ it,
       match item_source_url it with
       | Some source_url =>
           if String.eqb source_url "" then []
           else [Download source_url (or_str (item_date it) "")]
       | None => []
       end)
    media_items.

Definition main (fuel : nat) (w : S) : option (list event) :=
  let m := fetch_all_media_items fuel w in
  if finished m then
    let primary := Enter MEDIA_API :: map (request_of MEDIA_API) (trace m) in
    match all_items (final m) with
    | [] =>
        let p := fetch_all_posts fuel (world m) in
        if finished p then
          let post_images := parse_images_from_posts (all_posts (final p)) in
          Some (primary ++
                Enter POSTS_API :: map (request_of POSTS_API) (trace p) ++
                map (λ '(img_url, post_date), Download img_url post_date)
                    post_images)
        else None
    | media_items => Some (primary ++ media_downloads media_items)
    end
  else None.

End Endpoint.

(** ** Endpoints used as concrete inputs *)

Definition with_id (n : Z) : item := Item (Some n) None None "".
Definition without_id (url : string) : item := Item None (Some url) None "".

(** Every page of either collection holds one item whose id is the page
    number: the ids never run out. *)
Definition endless_get (w : unit) (a : api) (page per_page : Z)
    : response * unit :=
  (Reply 200 [with_id page], w).

(** Rejects every request. *)
Definition rejecting_get (w : unit) (a : api) (page per_page : Z)
    : response * unit :=
  (Reply 400 [], w).

(** No media; the posts collection serves the same post on pages 1 and 2
    and nothing after. *)
Definition repeating_get (w : unit) (a : api) (page per_page : Z)
    : response * unit :=
  match a with
  | MEDIA_API => (Reply 200 [], w)
  | POSTS_API =>
      if page <=? 2
      then (Reply 200 [Item (Some 7) None (Some "2024-01-15T10:12:30") "<img>"], w)
      else (Reply 200 [], w)
  end.

(** Accepts at most 25 items per page; page 1 holds ids 1 and 2 and an
    item without id, page 2 holds id 2 again, id 3 and another item
    without id, every later page repeats id 3. *)
Definition small_get (w : unit) (a : api) (page per_page : Z)
    : response * unit :=
  if per_page >? 25 then (Reply 400 [], w)
  else if page =? 1 then
    (Reply 200 [with_id 1; with_id 2; without_id "https://cdn.test/a.png"], w)
  else if page =? 2 then
    (Reply 200 [with_id 2; with_id 3; without_id "https://cdn.test/b.png"], w)
  else (Reply 200 [with_id 3], w).

(** The images of the one post body the concrete endpoints serve. *)
Definition one_img (html : string) : list string :=
  if String.eqb html "<img>" then ["/media/x.png"%string] else [].

(** ** Vocabulary of the statements *)

(** The items of a 200 response, nothing for any other exchange. *)
Definition page_items (e : exchange) : list item :=
  match ex_reply e with
  | Reply code data => if code =? 200 then data else []
  | Raised => []
  end.

Definition items_served (t : list exchange) : list item :=
  flat_map page_items t.

Definition ids_served (t : list exchange) : gset (option Z) :=
  list_to_set (item_id <$> items_served t).

(** How a request of the primary paginator relates to the one before it:
    after a 400 the page size is halved and the page number kept, after
    a page the page number advances and the page size is kept. *)
Definition follows (e1 e2 : exchange) : Prop :=
  (is_400 e1 ∧ 1 < ex_per_page e1 ∧
   ex_per_page e2 = ex_per_page e1 `div` 2 ∧ ex_page e2 = ex_page e1) ∨
  (is_page e1 ∧
   ex_per_page e2 = ex_per_page e1 ∧ ex_page e2 = ex_page e1 + 1).

(** What the loop of [fetch_all_media_items] maintains. *)
Definition media_inv (st : pstate) : Prop :=
  NoDup (item_id <$> all_items st) ∧
  all_seen_ids st = list_to_set (item_id <$> all_items st) ∧
  1 ≤ per_page st.

(** Every id the media endpoint can serve, in any state, lies in [U]. *)
Definition bounded_ids {S} (requests_get : S → api → Z → Z → response * S)
    (U : gset (option Z)) : Prop :=
  ∀ w p n code data w',
    requests_get w MEDIA_API p n = (Reply code data, w') →
    ∀ it, it ∈ data → item_id it ∈ U.

Global Instance api_eq_dec : EqDecision api.
Proof. solve_decision. Defined.

Global Instance event_eq_dec : EqDecision event.
Proof. solve_decision. Defined.


Definition id_less (it : item) : Prop := item_id it = None.

Global Instance id_less_dec (it : item) : Decision (id_less it).
Proof. unfold id_less. apply _. Defined.

(** ** The local file of a download: [clean_filename], [download_file] *)

(** The character class of the pattern in [clean_filename]: backslash,
    slash, star, question mark, colon, double quote, the two angle
    brackets and bar. *)
Definition invalid_chars : list ascii :=
  ["092"; "/"; "*"; "?"; ":"; "034"; "<"; ">"; "|"]%char.

Definition is_invalid (c : ascii) : bool := bool_decide (c ∈ invalid_chars).

(** [re.sub] of that class by an underscore. *)
Definition clean_filename (filename : string) : string :=
  str (map (λ c, if is_invalid c then "_"%char else c) (chars filename)).

(** The characters [\w] matches in a text pattern, for the characters up
    to U+00FF: the ASCII letters and digits, the underscore, and the
    letters and numeric characters of Latin-1. *)
Definition is_word (c : ascii) : bool :=
  let n := nat_of_ascii c in
  is_alpha c || is_digit c || is_char "_" c ||
  bool_decide (n ∈ [170; 178; 179; 181; 185; 186; 188; 189; 190]%nat) ||
  ((192 <=? n)%nat && negb (n =? 215)%nat && negb (n =? 247)%nat).

(** [re.sub(r"\W+", "_", s)]: every maximal run of characters that are
    not word characters becomes one underscore; [in_run] tells that the
    character before belonged to such a run. *)
Fixpoint sub_nonword (in_run : bool) (s : list ascii) : list ascii :=
  match s with
  | [] => []
  | c :: s' =>
      if is_word c then c :: sub_nonword false s'
      else if in_run then sub_nonword true s'
      else "_"%char :: sub_nonword true s'
  end.

(** [os.path.basename], POSIX flavour: what follows the last slash. *)
Definition basename (p : list ascii) : list ascii :=
  rev (break_at (is_char "/") (rev p)).1.

Definition endswith_slash (s : string) : bool :=
  match rev (chars s) with
  | c :: _ => is_char "/" c
  | [] => false
  end.

(** [os.path.join(a, b)], POSIX flavour. *)
Definition path_join (a b : string) : string :=
  if startswith "/" b then b
  else if String.eqb a "" || endswith_slash a then String.append a b
  else String.append a (String.append "/" b).

(** The name [download_file] gives the local file once the response is
    a 200: the base name of the URL's path, or the whole URL with its
    runs of non-word characters replaced when that name is empty, passed
    through [clean_filename]. *)
Definition download_filename (url : string) : string :=
  let parsed_url := urlparse (chars url) [] in
  let filename := basename (u_path parsed_url) in
  let filename :=
    match filename with
    | [] => sub_nonword false (chars url)
    | _ => filename
    end in
  clean_filename (str filename).

(** [filepath] in [download_file], for a timestamp that is a string. *)
Definition download_filepath (BASE_FOLDER url date_str : string)
    : result string :=
  match get_date_subfolder (PyStr date_str) with
  | Ok subfolder_name =>
      let target_folder := path_join BASE_FOLDER subfolder_name in
      Ok (path_join target_folder (download_filename url))
  | Raise e => Raise e
  end.

(** ** The configuration computed from the command line *)

Module Config.

(** [s.rstrip("/")] *)
Definition rstrip_slash (s : list ascii) : list ascii :=
  rev (break_at (λ c, negb (is_char "/" c)) (rev s)).2.

Definition SITE_URL (argv1 : string) : string :=
  str (rstrip_slash (chars argv1)).

(** [re.sub(r"^https?://", "", s)] *)
Definition strip_http (s : string) : string :=
  if startswith "http://" s then str (drop 7 (chars s))
  else if startswith "https://" s then str (drop 8 (chars s))
  else s.

Definition DOMAIN (argv1 : string) : string :=
  match u_netloc (urlparse (chars (SITE_URL argv1)) []) with
  | [] => strip_http (SITE_URL argv1)
  | netloc => str netloc
  end.

Definition MEDIA_API (argv1 : string) : string :=
  urljoin (SITE_URL argv1) "/wp-json/wp/v2/media".

Definition POSTS_API (argv1 : string) : string :=
  urljoin (SITE_URL argv1) "/wp-json/wp/v2/posts".

Definition BASE_FOLDER (argv1 : string) : string :=
  String.append "downloaded_" (DOMAIN argv1).

End Config.

(** ** Further vocabulary *)

(** The exchange was answered with a 400. *)
Definition rejected (e : exchange) : bool :=
  match ex_reply e with
  | Reply code _ => code =? 400
  | Raised => false
  end.

(** The exchange was answered with a 200 and a non-empty batch. *)
Definition served_page (e : exchange) : bool :=
  match ex_reply e with
  | Reply code (_ :: _) => code =? 200
  | _ => false
  end.

(** The page sizes the primary paginator can reach from 100. *)
Definition page_sizes : list Z := [100; 50; 25; 12; 6; 3; 1].

(** The posts endpoint serves no batch beyond page [N]. *)
Definition bounded_pages {S} (requests_get : S → api → Z → Z → response * S)
    (N : nat) : Prop :=
  ∀ w p n, Z.of_nat N < p →
    served_page (Exchange p n (requests_get w POSTS_API p n).1) = false.

(** ** [main] as it runs *)










(** * Theorems *)

(** ** One page of the primary paginator *)

Lemma foldl_visit_spec (data : list item) :
  ∀ items seen new, ∃ fresh,
    foldl visit (items, seen, new) data =
      (items ++ fresh, list_to_set (item_id <$> fresh) ∪ seen,
       new ++ (item_id <$> fresh)) ∧
    NoDup (item_id <$> fresh) ∧
    (∀ k, k ∈ item_id <$> fresh ↔ k ∈ item_id <$> data ∧ k ∉ seen) ∧
    fresh `sublist_of` data.
Proof.
  induction data as [|it data IH]; intros items seen new.
  - exists []. simpl. rewrite !app_nil_r, (left_id_L ∅ (∪)).
    split_and!; [done|constructor| |constructor].
    intros k. rewrite elem_of_nil. tauto.
  - cbn [foldl]. unfold visit at 2. destruct (decide (item_id it ∈ seen)) as [Hin|Hnin].
    + destruct (IH items seen new) as (fresh & -> & Hnd & Hiff & Hsub).
      exists fresh. split_and!; [done|done| |by apply sublist_cons].
      intros k. rewrite Hiff. set_solver.
    + destruct (IH (items ++ [it]) ({[item_id it]} ∪ seen)
                   (new ++ [item_id it])) as (fresh & -> & Hnd & Hiff & Hsub).
      exists (it :: fresh). split_and!.
      * rewrite <- !app_assoc. simpl. f_equal. f_equal. set_solver.
      * simpl. constructor; [|done]. rewrite Hiff. set_solver.
      * intros k. simpl. rewrite elem_of_cons, Hiff, elem_of_cons.
        split.
        -- intros [->|[Hk Hn]]; [by split; [left|]|].
           split; [by right|set_solver].
        -- intros [[->|Hk] Hn]; [by left|].
           destruct (decide (k = item_id it)) as [->|Hne]; [by left|].
           right. split; [done|set_solver].
      * by apply sublist_skip.
Qed.

Lemma scan_page_spec (data items : list item) (seen : gset (option Z)) :
  ∃ fresh,
    scan_page data items seen =
      (items ++ fresh, list_to_set (item_id <$> fresh) ∪ seen,
       item_id <$> fresh) ∧
    NoDup (item_id <$> fresh) ∧
    (∀ k, k ∈ item_id <$> fresh ↔ k ∈ item_id <$> data ∧ k ∉ seen) ∧
    fresh `sublist_of` data.
Proof.
  unfold scan_page.
  destruct (foldl_visit_spec data items seen []) as (fresh & -> & ?).
  by exists fresh.
Qed.

(** ** One iteration of the primary paginator *)

Lemma media_body_continue (r : response) (st st' : pstate) :
  media_body r st = Continue st' →
  (∃ data, r = Reply 400 data ∧ 1 < per_page st ∧
     st' = PState (page_num st) (per_page st `div` 2)
                  (all_seen_ids st) (all_items st)) ∨
  (∃ data fresh, r = Reply 200 data ∧ fresh ≠ [] ∧
     st' = PState (page_num st + 1) (per_page st)
                  (list_to_set (item_id <$> fresh) ∪ all_seen_ids st)
                  (all_items st ++ fresh) ∧
     NoDup (item_id <$> fresh) ∧
     (∀ k, k ∈ item_id <$> fresh ↔
           k ∈ item_id <$> data ∧ k ∉ all_seen_ids st) ∧
     fresh `sublist_of` data).
Proof.
  unfold media_body. destruct r as [|code data]; [done|].
  destruct (Z.eqb_spec code 400) as [->|H400].
  - destruct (Z.gtb_spec (per_page st) MIN_PER_PAGE) as [Hgt|Hle]; [|done].
    intros [= <-]. left. exists data. unfold MIN_PER_PAGE in *.
    split_and!; [done|lia|]. f_equal.
    assert (1 ≤ per_page st `div` 2) by (apply Z.div_le_lower_bound; lia).
    lia.
  - destruct (Z.eqb_spec code 200) as [->|H200]; [|done].
    destruct data as [|it data]; [done|].
    destruct (scan_page_spec (it :: data) (all_items st) (all_seen_ids st))
      as (fresh & -> & Hnd & Hiff & Hsub).
    destruct fresh as [|f fresh]; [done|].
    intros [= <-]. right. by exists (it :: data), (f :: fresh).
Qed.

Lemma media_body_break (r : response) (st st' : pstate) :
  media_body r st = Break st' →
  st' = st ∧
  (r = Raised ∨
   (∃ data, r = Reply 400 data ∧ per_page st ≤ 1) ∨
   r = Reply 200 [] ∨
   (∃ data, r = Reply 200 data ∧ data ≠ [] ∧
      ∀ it, it ∈ data → item_id it ∈ all_seen_ids st) ∨
   (∃ code data, r = Reply code data ∧ code ≠ 200 ∧ code ≠ 400)).
Proof.
  unfold media_body. destruct r as [|code data]; [intros [= <-]; auto|].
  destruct (Z.eqb_spec code 400) as [->|H400].
  - destruct (Z.gtb_spec (per_page st) MIN_PER_PAGE) as [Hgt|Hle]; [done|].
    intros [= <-]. split; [done|]. right; left. by exists data.
  - destruct (Z.eqb_spec code 200) as [->|H200].
    2:{ intros [= <-]. split; [done|]. do 4 right. by exists code, data. }
    destruct data as [|it data]; [intros [= <-]; auto|].
    destruct (scan_page_spec (it :: data) (all_items st) (all_seen_ids st))
      as (fresh & -> & Hnd & Hiff & Hsub).
    destruct fresh as [|f fresh]; [|done].
    intros [= <-]. split.
    + destruct st as [p n seen items]. simpl. f_equal.
      * apply (left_id_L ∅ (∪)).
      * apply app_nil_r.
    + do 3 right; left. exists (it :: data). split_and!; [done..|].
      intros x Hx. destruct (decide (item_id x ∈ all_seen_ids st)); [done|].
      exfalso. apply (not_elem_of_nil (item_id x)), Hiff.
      split; [|done]. by apply list_elem_of_fmap_2.
Qed.

Lemma media_body_inv (r : response) (st : pstate) :
  media_inv st →
  match media_body r st with
  | Continue st' | Break st' => media_inv st'
  end.
Proof.
  intros (Hnd & Hseen & Hpp).
  destruct (media_body r st) as [st'|st'] eqn:Hb.
  - apply media_body_continue in Hb
      as [(data & -> & Hgt & ->)|(data & fresh & -> & Hne & -> & Hf & Hiff & _)].
    + split_and!; simpl; [done..|].
      apply Z.div_le_lower_bound; lia.
    + split_and!; simpl; [| |done].
      * rewrite fmap_app. apply NoDup_app. split_and!; [done| |done].
        intros k Hk Hk'. apply Hiff in Hk' as [_ Hk']. apply Hk'.
        rewrite Hseen. by apply elem_of_list_to_set.
      * rewrite fmap_app, list_to_set_app_L, Hseen. apply (comm_L (∪)).
  - apply media_body_break in Hb as [-> _]. done.
Qed.

Section Paginators.

Context {S : Type}.
Variable get : S → api → Z → Z → response * S.

Lemma media_start_inv : media_inv media_start.
Proof. split_and!; simpl; [constructor|done|unfold INITIAL_PER_PAGE; lia]. Qed.

Lemma media_loop_inv (fuel : nat) :
  ∀ w st, media_inv st → media_inv (final (media_loop get fuel w st)).
Proof.
  induction fuel as [|fuel IH]; intros w st Hinv; [done|].
  simpl. destruct (get w MEDIA_API _ _) as [r w'].
  pose proof (media_body_inv r st Hinv) as Hb.
  destruct (media_body r st) as [st'|st']; simpl; auto.
Qed.

(** A run that made the requests [pre] and then [e] is the run of
    [length pre] iterations followed by a run from where that one stopped. *)
Lemma media_loop_split (pre : list exchange) :
  ∀ fuel w st e post,
    trace (media_loop get fuel w st) = pre ++ e :: post →
    let r0 := media_loop get (length pre) w st in
    ∃ fuel',
      fuel = (length pre + fuel')%nat ∧
      finished r0 = false ∧ trace r0 = pre ∧
      let r1 := media_loop get fuel' (world r0) (final r0) in
      trace r1 = e :: post ∧
      finished r1 = finished (media_loop get fuel w st) ∧
      final r1 = final (media_loop get fuel w st).
Proof.
  induction pre as [|e0 pre IH]; intros fuel w st e post Ht.
  - exists fuel. simpl in *. by split_and!.
  - destruct fuel as [|fuel]; [done|]. simpl in *.
    destruct (get w MEDIA_API _ _) as [r w'].
    destruct (media_body r st) as [st'|st']; simpl in *.
    + injection Ht as <- Ht.
      destruct (IH _ _ _ _ _ Ht) as (fuel' & -> & Hf & Htr & H1 & H2 & H3).
      exists fuel'. rewrite Htr. by split_and!.
    + injection Ht as _ Ht. by destruct pre.
Qed.

Lemma media_loop_head (fuel : nat) (w : S) (st : pstate) e post :
  trace (media_loop get fuel w st) = e :: post →
  ∃ fuel' w',
    fuel = Datatypes.S fuel' ∧
    get w MEDIA_API (page_num st) (per_page st) = (ex_reply e, w') ∧
    ex_page e = page_num st ∧ ex_per_page e = per_page st ∧
    match media_body (ex_reply e) st with
    | Break st' =>
        post = [] ∧ finished (media_loop get fuel w st) = true ∧
        final (media_loop get fuel w st) = st'
    | Continue st' =>
        post = trace (media_loop get fuel' w' st') ∧
        finished (media_loop get fuel w st) = finished (media_loop get fuel' w' st') ∧
        final (media_loop get fuel w st) = final (media_loop get fuel' w' st')
    end.
Proof.
  destruct fuel as [|fuel]; [done|]. simpl.
  destruct (get w MEDIA_API _ _) as [r w'] eqn:Hget.
  destruct (media_body r st) as [st'|st'] eqn:Hb; simpl;
    intros [= <- <-]; exists fuel, w'; simpl; rewrite Hb; by split_and!.
Qed.

(** The variables after some iterations that did not leave the loop. *)
Lemma media_loop_unfinished (fuel : nat) :
  ∀ w st,
    let r := media_loop get fuel w st in
    finished r = false →
    all_seen_ids (final r) = ids_served (trace r) ∪ all_seen_ids st ∧
    ∃ emitted, all_items (final r) = all_items st ++ emitted ∧
               ∀ it, it ∈ emitted → it ∈ items_served (trace r).
Proof.
  induction fuel as [|fuel IH]; intros w st; simpl.
  - intros _. split; [unfold ids_served; simpl; by rewrite (left_id_L ∅ (∪))|].
    exists []. split; [by rewrite app_nil_r|]. by intros it ?%elem_of_nil.
  - destruct (get w MEDIA_API _ _) as [r w'].
    destruct (media_body r st) as [st'|st'] eqn:Hb; simpl; [|done].
    intros Hfin. destruct (IH w' st' Hfin) as (Hseen & emitted & Hitems & Hem).
    rewrite Hseen, Hitems. unfold ids_served, items_served in *. simpl.
    apply media_body_continue in Hb
      as [(data & -> & Hgt & ->)|(data & fresh & -> & Hne & -> & Hf & Hiff & Hsub)];
      simpl.
    + split; [done|]. exists emitted. split; [done|]. intros it Hit.
      unfold page_items. simpl. by apply Hem.
    + unfold page_items at 1 3. simpl. split.
      * rewrite fmap_app, list_to_set_app_L.
        apply set_eq. intros k. rewrite !elem_of_union, !elem_of_list_to_set.
        specialize (Hiff k).
        destruct (decide (k ∈ all_seen_ids st)); tauto.
      * exists (fresh ++ emitted). split; [by rewrite app_assoc|].
        intros it [Hit|Hit]%elem_of_app; apply elem_of_app.
        -- left. by eapply elem_of_sublist.
        -- right. by apply Hem.
Qed.

(** Two requests in a row of the primary paginator. *)
Lemma media_loop_follows (pre : list exchange) :
  ∀ fuel w st e1 e2 post,
    trace (media_loop get fuel w st) = pre ++ e1 :: e2 :: post →
    follows e1 e2.
Proof.
  intros fuel w st e1 e2 post Ht.
  destruct (media_loop_split pre _ _ _ _ _ Ht)
    as (fuel' & -> & _ & _ & Ht1 & _ & _).
  apply media_loop_head in Ht1
    as (fuel1 & w1 & -> & Hget & Hp & Hn & Hb).
  destruct (media_body (ex_reply e1) _) as [st'|st'] eqn:Hbody;
    [|by destruct Hb as [[=] _]].
  destruct Hb as (Ht2 & _ & _). symmetry in Ht2.
  apply media_loop_head in Ht2 as (fuel2 & w2 & -> & _ & Hp2 & Hn2 & _).
  unfold follows. rewrite Hp2, Hn2, Hp, Hn.
  apply media_body_continue in Hbody
    as [(data & Hr & Hgt & ->)|(data & fresh & Hr & Hne & -> & _ & Hiff & Hsub)];
    simpl.
  - left. split_and!; [by exists data|done..].
  - right. split_and!; [|done..]. exists data. split; [done|].
    intros ->. apply sublist_nil_r in Hsub. done.
Qed.

Lemma media_loop_per_page (fuel : nat) :
  ∀ w st, 1 ≤ per_page st →
    Forall (λ e, 1 ≤ ex_per_page e ≤ per_page st)
           (trace (media_loop get fuel w st)).
Proof.
  induction fuel as [|fuel IH]; intros w st Hpp; simpl; [constructor|].
  destruct (get w MEDIA_API _ _) as [r w'].
  destruct (media_body r st) as [st'|st'] eqn:Hb; simpl.
  - constructor; [simpl; lia|].
    assert (1 ≤ per_page st' ≤ per_page st) as Hst'.
    { apply media_body_continue in Hb
        as [(data & -> & Hgt & ->)|(data & fresh & -> & Hne & -> & _)]; simpl.
      - split; [apply Z.div_le_lower_bound; lia|].
        apply Z.div_le_upper_bound; lia.
      - lia. }
    eapply Forall_impl; [apply IH; lia|]. simpl. intros e ?. lia.
  - repeat constructor; simpl; lia.
Qed.

(** More fuel does not change a run that left the loop. *)
Lemma media_loop_stable (fuel : nat) :
  ∀ w st fuel',
    finished (media_loop get fuel w st) = true → (fuel ≤ fuel')%nat →
    media_loop get fuel' w st = media_loop get fuel w st.
Proof.
  induction fuel as [|fuel IH]; intros w st fuel' Hfin Hle; [done|].
  destruct fuel' as [|fuel']; [lia|]. simpl in *.
  destruct (get w MEDIA_API _ _) as [r w'].
  destruct (media_body r st) as [st'|st']; [|done].
  simpl in Hfin. rewrite (IH w' st' fuel'); [done|done|lia].
Qed.

Lemma log2_halve (n : Z) :
  1 < n → (Z.to_nat (Z.log2 (n `div` 2)) < Z.to_nat (Z.log2 n))%nat.
Proof.
  intros Hn.
  assert (Z.log2 (n `div` 2) = Z.log2 n - 1) as ->.
  { change (n `div` 2) with (n `div` 2 ^ 1).
    rewrite <- (Z.shiftr_div_pow2 n 1), Z.log2_shiftr by lia.
    assert (1 ≤ Z.log2 n) by (apply Z.log2_le_pow2; simpl; lia). lia. }
  assert (1 ≤ Z.log2 n) by (apply Z.log2_le_pow2; simpl; lia). lia.
Qed.

(** The loop leaves within one iteration per id still unseen and one per
    halving still possible, plus the last one. *)
Lemma media_loop_terminates (U : gset (option Z)) :
  bounded_ids get U →
  ∀ fuel w st,
    (size (U ∖ all_seen_ids st) + Z.to_nat (Z.log2 (per_page st)) < fuel)%nat →
    finished (media_loop get fuel w st) = true.
Proof.
  intros HU. induction fuel as [|fuel IH]; intros w st Hfuel; [lia|].
  simpl. destruct (get w MEDIA_API _ _) as [r w'] eqn:Hget.
  destruct (media_body r st) as [st'|st'] eqn:Hb; [|done]. simpl.
  apply IH.
  apply media_body_continue in Hb
    as [(data & -> & Hgt & ->)|(data & fresh & -> & Hne & -> & _ & Hiff & _)];
    simpl.
  - pose proof (log2_halve _ Hgt). lia.
  - destruct fresh as [|f fresh]; [done|].
    destruct (Hiff (item_id f)) as [[Hdata Hnew] _]; [left|].
    enough (size (U ∖ (list_to_set (item_id <$> f :: fresh) ∪ all_seen_ids st))
            < size (U ∖ all_seen_ids st))%nat by lia.
    apply subset_size. apply list_elem_of_fmap in Hdata as (it & Hid & Hit).
    assert (item_id f ∈ U) by (rewrite Hid; by eapply HU).
    set_solver.
Qed.

Lemma media_loop_length (fuel : nat) :
  ∀ w st, (length (trace (media_loop get fuel w st)) ≤ fuel)%nat.
Proof.
  induction fuel as [|fuel IH]; intros w st; simpl; [done|].
  destruct (get w MEDIA_API _ _) as [r w'].
  destruct (media_body r st) as [st'|st']; simpl; [|lia].
  specialize (IH w' st'). lia.
Qed.

(** Running [n + k] iterations is running [n] and, if the loop was not
    left, [k] more from there. *)
Lemma media_loop_add (n : nat) :
  ∀ k w st,
    let r0 := media_loop get n w st in
    media_loop get (n + k) w st =
      if finished r0 then r0
      else
        let r1 := media_loop get k (world r0) (final r0) in
        Run (finished r1) (final r1) (world r1) (trace r0 ++ trace r1).
Proof.
  induction n as [|n IH]; intros k w st; simpl.
  - by destruct (media_loop get k w st).
  - destruct (get w MEDIA_API _ _) as [r w'].
    destruct (media_body r st) as [st'|st']; simpl; [|done].
    rewrite IH. by destruct (finished (media_loop get n w' st')).
Qed.

(** C2. Shrink monotonicity of the primary paginator: every request
    asks for at least one item per page; from one request to the next the
    page size never grows; the request after a 400 uses the floor-halved
    page size and the same page number, and the rejected size was above 1;
    a 400 at a page size above 1 is always followed by another request
    when one more iteration is run, and a 400 at page size 1 ends the
    pagination. *)
Theorem shrink_monotonicity (fuel : nat) (w : S) :
  Forall (λ e, 1 ≤ ex_per_page e) (trace (fetch_all_media_items get fuel w)) ∧
  (∀ pre e1 e2 post,
     trace (fetch_all_media_items get fuel w) = pre ++ e1 :: e2 :: post →
     ex_per_page e2 ≤ ex_per_page e1 ∧
     (is_400 e1 →
      1 < ex_per_page e1 ∧
      ex_per_page e2 = ex_per_page e1 `div` 2 ∧
      ex_page e2 = ex_page e1)) ∧
  (∀ pre e,
     trace (fetch_all_media_items get fuel w) = pre ++ [e] →
     is_400 e → 1 < ex_per_page e →
     finished (fetch_all_media_items get fuel w) = false ∧
     ∃ e2, trace (fetch_all_media_items get (Datatypes.S fuel) w)
           = pre ++ [e; e2]) ∧
  (∀ pre e post,
     trace (fetch_all_media_items get fuel w) = pre ++ e :: post →
     is_400 e → ex_per_page e ≤ 1 →
     post = [] ∧ finished (fetch_all_media_items get fuel w) = true).
Proof.
  unfold fetch_all_media_items. split_and!.
  - eapply Forall_impl.
    + apply media_loop_per_page. simpl. unfold INITIAL_PER_PAGE. lia.
    + simpl. intros e ?. lia.
  - intros pre e1 e2 post Ht.
    pose proof (media_loop_follows _ _ _ _ _ _ _ Ht) as Hf.
    pose proof (media_loop_per_page fuel w media_start) as Hall.
    rewrite Ht in Hall. 
    assert (1 ≤ ex_per_page e1) as H1.
    { eapply (Forall_forall (λ e, 1 ≤ ex_per_page e ≤ _));
        [apply Hall; simpl; unfold INITIAL_PER_PAGE; lia|].
      apply elem_of_app. right. left. }
    destruct Hf as [(H400 & Hgt & Hn & Hp)|((data & Hr & Hne) & Hn & Hp)].
    + split; [|done]. rewrite Hn. apply Z.div_le_upper_bound; lia.
    + split; [lia|]. intros [data' Hr']. congruence.
  - intros pre e Ht [data Hr] Hgt.
    destruct (media_loop_split pre _ _ _ _ _ Ht)
      as (fuel' & -> & Hfin0 & Htr0 & Ht1 & Hfin1 & _).
    apply media_loop_head in Ht1 as Hhead.
    destruct Hhead as (fuel1 & w1 & -> & Hget & Hp & Hn & Hb).
    assert (media_body (ex_reply e) (final (media_loop get (length pre) w media_start))
            = Continue (PState (ex_page e) (ex_per_page e `div` 2)
                         (all_seen_ids (final (media_loop get (length pre) w media_start)))
                         (all_items (final (media_loop get (length pre) w media_start)))))
      as Hbody.
    { rewrite Hr. unfold media_body. simpl. rewrite <- Hn, <- Hp.
      destruct (Z.gtb_spec (ex_per_page e) MIN_PER_PAGE) as [_|Hle];
        [|unfold MIN_PER_PAGE in Hle; lia].
      do 2 f_equal. unfold MIN_PER_PAGE.
      assert (1 ≤ ex_per_page e `div` 2) by (apply Z.div_le_lower_bound; lia).
      lia. }
    rewrite Hbody in Hb. destruct Hb as (Hpost & Hfin & _).
    symmetry in Hpost.
    assert (fuel1 = 0%nat) as ->.
    { destruct fuel1 as [|fuel1]; [done|]. simpl in Hpost.
      destruct (get w1 MEDIA_API _ _) as [r2 w2].
      by destruct (media_body r2 _). }
    split; [by rewrite <- Hfin1, Hfin|].
    replace (Datatypes.S (length pre + 1)) with (length pre + 2)%nat by lia.
    rewrite media_loop_add, Hfin0. simpl. rewrite Hget, Hbody, Htr0.
    destruct (get w1 MEDIA_API _ _) as [r2 w2].
    destruct (media_body r2 _); simpl; rewrite <- Hp, <- Hn;
      destruct e; simpl; eauto.
  - intros pre e post Ht [data Hr] Hle.
    destruct (media_loop_split pre _ _ _ _ _ Ht)
      as (fuel' & -> & Hfin0 & Htr0 & Ht1 & Hfin1 & _).
    apply media_loop_head in Ht1 as (fuel1 & w1 & -> & Hget & Hp & Hn & Hb).
    rewrite <- Hfin1.
    destruct (media_body (ex_reply e) _) as [st'|st'] eqn:Hbody;
      [|by destruct Hb as (-> & -> & _)].
    apply media_body_continue in Hbody
      as [(data' & _ & Hgt & _)|(data' & fresh & Hr' & _)]; [lia|congruence].
Qed.

(** C4, as amended. No iteration of the primary paginator stalls: it
    advances the page number by one having seen a new id, or halves the
    page size (which stays at least 1) after a 400, or leaves the loop
    (transport error, 400 at page size 1, empty batch, batch of known
    ids, any status other than 200 and 400).  When every id the endpoint
    can serve lies in a finite set [U], the enumeration leaves the loop
    within [size U + 7] requests, and more fuel does not change it. *)
Theorem media_termination :
  (∀ r st, 1 ≤ per_page st →
     match media_body r st with
     | Continue st' =>
         (page_num st' = page_num st + 1 ∧ per_page st' = per_page st ∧
          all_seen_ids st ⊂ all_seen_ids st') ∨
         (page_num st' = page_num st ∧ 1 ≤ per_page st' < per_page st ∧
          all_seen_ids st' = all_seen_ids st ∧ ∃ data, r = Reply 400 data)
     | Break st' =>
         st' = st ∧
         (r = Raised ∨
          (∃ data, r = Reply 400 data ∧ per_page st = 1) ∨
          r = Reply 200 [] ∨
          (∃ data, r = Reply 200 data ∧ data ≠ [] ∧
             ∀ it, it ∈ data → item_id it ∈ all_seen_ids st) ∨
          (∃ code data, r = Reply code data ∧ code ≠ 200 ∧ code ≠ 400))
     end) ∧
  (∀ U, bounded_ids get U →
     ∀ w fuel, (size U + 7 ≤ fuel)%nat →
       finished (fetch_all_media_items get fuel w) = true ∧
       fetch_all_media_items get fuel w
         = fetch_all_media_items get (size U + 7) w ∧
       (length (trace (fetch_all_media_items get fuel w)) ≤ size U + 7)%nat).
Proof.
  split.
  - intros r st Hpp. destruct (media_body r st) as [st'|st'] eqn:Hb.
    + apply media_body_continue in Hb
        as [(data & -> & Hgt & ->)|(data & fresh & -> & Hne & -> & _ & Hiff & _)];
        simpl.
      * right. split_and!; [done| | |done|by exists data].
        -- apply Z.div_le_lower_bound; lia.
        -- apply Z.div_lt_upper_bound; lia.
      * left. split_and!; [done..|].
        destruct fresh as [|f fresh]; [done|].
        destruct (Hiff (item_id f)) as [[_ Hnew] _]; [left|]. set_solver.
    + apply media_body_break in Hb
        as [-> [->|[(data & -> & Hle)|[->|[(data & -> & Hd)|Hother]]]]];
        (split; [done|]); auto.
      * right; left. exists data. split; [done|lia].
      * do 3 right; left. by exists data.
  - intros U HU w fuel Hfuel.
    assert (finished (fetch_all_media_items get (size U + 7) w) = true) as Hfin.
    { apply (media_loop_terminates U HU). simpl.
      assert (size (U ∖ ∅) ≤ size U)%nat
        by (apply subseteq_size; set_solver).
      change (Z.to_nat (Z.log2 INITIAL_PER_PAGE)) with 6%nat. lia. }
    unfold fetch_all_media_items in *.
    rewrite (media_loop_stable _ _ _ fuel Hfin Hfuel).
    split_and!; [done..|]. apply media_loop_length.
Qed.

(** C5. Early termination on stagnation: when the primary paginator
    receives a non-empty page all of whose ids were served by the pages
    before it, that request is its last one whatever the fuel, the loop
    is left, and the items emitted are those emitted before that page. *)
Theorem early_termination_on_stagnation (fuel : nat) (w : S)
    (pre post : list exchange) (e : exchange) (data : list item) :
  trace (fetch_all_media_items get fuel w) = pre ++ e :: post →
  ex_reply e = Reply 200 data →
  data ≠ [] →
  (∀ it, it ∈ data → item_id it ∈ ids_served pre) →
  post = [] ∧
  finished (fetch_all_media_items get fuel w) = true ∧
  all_seen_ids (final (fetch_all_media_items get (length pre) w))
    = ids_served pre ∧
  all_items (final (fetch_all_media_items get fuel w))
    = all_items (final (fetch_all_media_items get (length pre) w)) ∧
  (∀ fuel', (fuel ≤ fuel')%nat →
     trace (fetch_all_media_items get fuel' w) = pre ++ [e]).
Proof.
  unfold fetch_all_media_items. intros Ht Hr Hne Hseen.
  destruct (media_loop_split pre _ _ _ _ _ Ht)
    as (fuel' & -> & Hfin0 & Htr0 & Ht1 & Hfin1 & Hfinal1).
  destruct (media_loop_unfinished _ w media_start Hfin0) as (Hids & _).
  rewrite Htr0 in Hids. simpl in Hids. rewrite (right_id_L ∅ (∪)) in Hids.
  apply media_loop_head in Ht1 as (fuel1 & w1 & -> & Hget & Hp & Hn & Hb).
  assert (media_body (ex_reply e)
            (final (media_loop get (length pre) w media_start))
          = Break (final (media_loop get (length pre) w media_start)))
    as Hbody.
  { destruct (media_body (ex_reply e) _) as [st'|st'] eqn:Hbody.
    - apply media_body_continue in Hbody
        as [(d & Hr' & _)|(d & fresh & Hr' & Hfresh & _ & _ & Hiff & _)];
        [congruence|].
      assert (d = data) as -> by congruence.
      destruct fresh as [|f fresh]; [done|].
      destruct (Hiff (item_id f)) as [[Hin Hnew] _]; [left|].
      apply list_elem_of_fmap in Hin as (it & Hid & Hit).
      exfalso. apply Hnew. rewrite Hids, Hid. by apply Hseen.
    - by apply media_body_break in Hbody as [-> _]. }
  rewrite Hbody in Hb. destruct Hb as (-> & Hfin & Hfinal).
  assert (finished (media_loop get (length pre + Datatypes.S fuel1) w media_start)
          = true) as Hdone by (by rewrite <- Hfin1).
  split_and!; [done|done|done|by rewrite <- Hfinal1, Hfinal|].
  intros fuel' Hle. by rewrite (media_loop_stable _ _ _ fuel' Hdone Hle).
Qed.

Lemma filter_id_less_nil (l : list item) :
  None ∉ item_id <$> l → filter id_less l = [].
Proof.
  induction l as [|it l IH]; [done|]. rewrite fmap_cons, not_elem_of_cons.
  intros [Hne Hl]. rewrite filter_cons_False; [by apply IH|].
  unfold id_less. congruence.
Qed.

Lemma filter_id_less_length (l : list item) :
  NoDup (item_id <$> l) → (length (filter id_less l) ≤ 1)%nat.
Proof.
  induction l as [|it l IH]; [simpl; lia|].
  rewrite fmap_cons, NoDup_cons. intros [Hit Hl].
  destruct (decide (id_less it)) as [Hid|Hid].
  - rewrite filter_cons_True by done.
    rewrite filter_id_less_nil; [simpl; lia|]. by rewrite <- Hid.
  - rewrite filter_cons_False by done. by apply IH.
Qed.

(** C9. In the primary paginator the items without an id share the one
    key [None]: at most one of them is among the emitted items of a run,
    the first one met is emitted and puts [None] among the seen ids, and
    from then on every item without an id is passed over. *)
Theorem id_less_items_share_one_key (fuel : nat) (w : S) :
  (length (filter id_less
             (all_items (final (fetch_all_media_items get fuel w)))) ≤ 1)%nat ∧
  (∀ it items seen new,
     id_less it → None ∉ seen →
     visit (items, seen, new) it
       = (items ++ [it], {[None]} ∪ seen, new ++ [None])) ∧
  (∀ it items seen new,
     id_less it → None ∈ seen →
     visit (items, seen, new) it = (items, seen, new)) ∧
  (∀ data items seen,
     None ∈ seen →
     ∀ it, id_less it →
       it ∈ (scan_page data items seen).1.1 → it ∈ items).
Proof.
  split_and!.
  - apply filter_id_less_length.
    apply (media_loop_inv fuel w media_start media_start_inv).
  - intros it items seen new Hid Hnew. unfold visit. rewrite Hid.
    by destruct (decide (None ∈ seen)).
  - intros it items seen new Hid Hnew. unfold visit. rewrite Hid.
    by destruct (decide (None ∈ seen)).
  - intros data items seen Hseen it Hid.
    destruct (scan_page_spec data items seen) as (fresh & -> & _ & Hiff & _).
    simpl. intros [Hit|Hit]%elem_of_app; [done|].
    destruct (Hiff None) as [[_ Hn] _]; [|done].
    rewrite <- Hid. by apply list_elem_of_fmap_2.
Qed.

(** ** The secondary paginator *)

Lemma posts_body_continue (r : response) (st st' : qstate) :
  posts_body r st = Continue st' →
  ∃ data, r = Reply 200 data ∧ data ≠ [] ∧
          st' = QState (q_page_num st + 1) (all_posts st ++ data).
Proof.
  unfold posts_body. destruct r as [|code data]; [done|].
  destruct (Z.eqb_spec code 400); [done|].
  destruct (Z.eqb_spec code 200) as [->|]; [|done].
  destruct data as [|it data]; [done|].
  intros [= <-]. by exists (it :: data).
Qed.

Lemma posts_body_break (r : response) (st st' : qstate) :
  posts_body r st = Break st' →
  st' = st ∧ page_items (Exchange (q_page_num st) posts_per_page r) = [] ∧
  ¬ is_page (Exchange (q_page_num st) posts_per_page r).
Proof.
  unfold posts_body, page_items, is_page. simpl.
  destruct r as [|code data];
    [intros [= <-]; split_and!; [done..|]; by intros (d & ? & _)|].
  destruct (Z.eqb_spec code 400) as [->|].
  { intros [= <-]. split_and!; [done..|]. by intros (d & ? & _). }
  destruct (Z.eqb_spec code 200) as [->|].
  2:{ intros [= <-]. split_and!; [done..|]. intros (d & ? & _). congruence. }
  destruct data as [|it data]; [|done].
  intros [= <-]. split_and!; [done..|]. intros (d & ? & ?). congruence.
Qed.

Lemma posts_loop_nil (fuel : nat) (w : S) (st : qstate) :
  trace (posts_loop get fuel w st) = [] →
  finished (posts_loop get fuel w st) = false.
Proof.
  destruct fuel as [|fuel]; [done|]. simpl.
  destruct (get w POSTS_API _ _) as [r w'].
  by destruct (posts_body r st).
Qed.

Lemma posts_loop_spec (fuel : nat) :
  ∀ w st,
    all_posts (final (posts_loop get fuel w st))
      = all_posts st ++ items_served (trace (posts_loop get fuel w st)) ∧
    (∀ i e, trace (posts_loop get fuel w st) !! i = Some e →
       ex_per_page e = posts_per_page ∧
       ex_page e = q_page_num st + Z.of_nat i) ∧
    (∀ pre e post, trace (posts_loop get fuel w st) = pre ++ e :: post →
       ¬ is_page e →
       post = [] ∧ finished (posts_loop get fuel w st) = true) ∧
    (∀ pre e, trace (posts_loop get fuel w st) = pre ++ [e] →
       is_page e → finished (posts_loop get fuel w st) = false).
Proof.
  induction fuel as [|fuel IH]; intros w st.
  { simpl. split_and!.
    - by rewrite app_nil_r.
    - intros i e. by rewrite lookup_nil.
    - intros pre e post Ht. by destruct pre.
    - intros pre e Ht. by destruct pre. }
  simpl. destruct (get w POSTS_API _ _) as [r w'].
  destruct (posts_body r st) as [st'|st'] eqn:Hb; simpl.
  - apply posts_body_continue in Hb as (data & -> & Hne & ->).
    destruct (IH w' (QState (q_page_num st + 1) (all_posts st ++ data)))
      as (Hposts & Hreq & Hstop & Hgo).
    split_and!.
    + rewrite Hposts. simpl. unfold items_served. simpl.
      unfold page_items at 2. simpl. by rewrite app_assoc.
    + intros [|i] e He; simpl in He.
      * injection He as <-. simpl. split; [done|lia].
      * destruct (Hreq i e He) as [-> ->]. simpl. split; [done|lia].
    + intros [|e0 pre] e post Ht Hnp; simpl in Ht; injection Ht as <- Ht.
      * exfalso. apply Hnp. by exists data.
      * by eapply Hstop.
    + intros [|e0 pre] e Ht Hp; simpl in Ht; injection Ht as <- Ht.
      * by apply posts_loop_nil.
      * by eapply Hgo.
  - apply posts_body_break in Hb as (-> & Hitems & Hnp).
    split_and!.
    + unfold items_served. cbn [trace final flat_map].
      by rewrite Hitems, !app_nil_r.
    + intros [|i] e He; simpl in He; [|by rewrite lookup_nil in He].
      injection He as <-. simpl. split; [done|lia].
    + intros [|e0 pre] e post Ht _; simpl in Ht; injection Ht as <- Ht.
      * by subst.
      * by destruct pre.
    + intros [|e0 pre] e Ht Hp; simpl in Ht.
      * injection Ht as <-. done.
      * injection Ht as _ Ht. by destruct pre.
Qed.

(** C1, as amended. A run of the primary paginator never emits two
    items with the same id: on every page an item is emitted exactly when
    its id is neither seen before the page nor met earlier on the page,
    and the ids of the emitted items are added to the seen ids.  The
    secondary paginator keeps no seen ids: it emits every item of every
    page it was served. *)
Theorem no_duplicate_ids (fuel : nat) (w : S) :
  NoDup (item_id <$> all_items (final (fetch_all_media_items get fuel w))) ∧
  (∀ data items seen, ∃ fresh,
     scan_page data items seen =
       (items ++ fresh, list_to_set (item_id <$> fresh) ∪ seen,
        item_id <$> fresh) ∧
     NoDup (item_id <$> fresh) ∧
     (∀ k, k ∈ item_id <$> fresh ↔ k ∈ item_id <$> data ∧ k ∉ seen) ∧
     fresh `sublist_of` data) ∧
  all_posts (final (fetch_all_posts get fuel w))
    = items_served (trace (fetch_all_posts get fuel w)).
Proof.
  split_and!.
  - apply (media_loop_inv fuel w media_start media_start_inv).
  - apply scan_page_spec.
  - apply (posts_loop_spec fuel w posts_start).
Qed.

(** C6, as amended. The secondary paginator asks for 20 items per page
    in every request and for the pages 1, 2, 3, ... in turn; any reply
    other than a 200 with a non-empty batch (a transport error, a 400 at
    any page size, any other status, an empty batch) is its last one and
    ends the pagination; a non-empty batch never ends it, whatever its
    ids; and it returns the batches it was served, in order. *)
Theorem posts_pagination (fuel : nat) (w : S) :
  (∀ i e, trace (fetch_all_posts get fuel w) !! i = Some e →
     ex_per_page e = 20 ∧ ex_page e = Z.of_nat i + 1) ∧
  (∀ pre e post, trace (fetch_all_posts get fuel w) = pre ++ e :: post →
     ¬ is_page e →
     post = [] ∧ finished (fetch_all_posts get fuel w) = true) ∧
  (∀ pre e, trace (fetch_all_posts get fuel w) = pre ++ [e] →
     is_page e → finished (fetch_all_posts get fuel w) = false) ∧
  all_posts (final (fetch_all_posts get fuel w))
    = items_served (trace (fetch_all_posts get fuel w)).
Proof.
  destruct (posts_loop_spec fuel w posts_start) as (Hposts & Hreq & Hstop & Hgo).
  split_and!; [|done..].
  intros i e He. destruct (Hreq i e He) as [-> ->]. simpl.
  split; [done|lia].
Qed.

(** ** The orchestrator *)



Lemma elem_of_requests (a : api) (t : list exchange) (e : event) :
  e ∈ map (request_of a) t → ∃ p n, e = Request a p n.
Proof.
  intros (x & -> & _)%list_elem_of_fmap. unfold request_of. eauto.
Qed.

Lemma elem_of_media_downloads (items : list item) (e : event) :
  e ∈ media_downloads items → ∃ u d, e = Download u d.
Proof.
  unfold media_downloads. intros (it & _ & He)%list_elem_of_In%in_flat_map.
  destruct (item_source_url it) as [u|]; [|by destruct He].
  destruct (String.eqb u ""); [by destruct He|].
  destruct He as [<-|[]]. eauto.
Qed.

Lemma elem_of_post_downloads (l : list (string * string)) (e : event) :
  e ∈ map (λ '(img_url, post_date), Download img_url post_date) l →
  ∃ u d, e = Download u d.
Proof. intros ([u d] & -> & _)%list_elem_of_fmap. eauto. Qed.

















End Paginators.

(** ** The markup extractor *)

Lemma startswith_slashes (s : string) :
  startswith "//" s = true → startswith "/" s = true.
Proof.
  unfold startswith. destruct s as [|a s]; [done|]. cbn [String.prefix].
  destruct (ascii_dec "/" a); [|done]. intros _. by destruct s.
Qed.

(** C7. Reference normalization: a reference that begins with [//] is
    prefixed with [https:]; one that begins with a single [/] is joined
    to the site URL by [urljoin]; any other reference is left as it is;
    the three references of the specification come out as it says; and
    the extractor returns exactly the references of the posts' images,
    normalized this way. *)
Theorem reference_normalization (SITE_URL : string)
    (img_srcs : string → list string) :
  (∀ src, startswith "//" src = true →
     resolve_img_url SITE_URL src = String.append "https:" src) ∧
  (∀ src, startswith "//" src = false → startswith "/" src = true →
     resolve_img_url SITE_URL src = urljoin SITE_URL src) ∧
  (∀ src, startswith "/" src = false →
     resolve_img_url SITE_URL src = src) ∧
  resolve_img_url "https://site.test" "//img.example/x.png"
    = "https://img.example/x.png"%string ∧
  resolve_img_url "https://site.test" "/media/x.png"
    = "https://site.test/media/x.png"%string ∧
  resolve_img_url "https://site.test" "https://cdn.test/x.png"
    = "https://cdn.test/x.png"%string ∧
  (∀ posts,
     (parse_images_from_posts SITE_URL img_srcs posts).*1
       = resolve_img_url SITE_URL
           <$> (posts ≫= λ post, img_srcs (item_rendered post))).
Proof.
  split_and!.
  - intros src H2. unfold resolve_img_url. by rewrite H2.
  - intros src H2 H1. unfold resolve_img_url. by rewrite H2, H1.
  - intros src H1. unfold resolve_img_url. rewrite H1.
    destruct (startswith "//" src) eqn:H2; [|done].
    apply startswith_slashes in H2. congruence.
  - by vm_compute.
  - by vm_compute.
  - by vm_compute.
  - intros posts. unfold parse_images_from_posts.
    induction posts as [|post posts IH]; [done|].
    cbn [flat_map]. rewrite fmap_app, IH, bind_cons, fmap_app. f_equal.
    generalize (img_srcs (item_rendered post)). intros l.
    induction l as [|src l IHl]; [done|].
    cbn [map]. by rewrite !fmap_cons, IHl.
Qed.

(** ** The date hint *)

Lemma is_digit_digit_char (n : Z) : is_digit (digit_char n) = true.
Proof.
  unfold digit_char.
  assert (0 ≤ n `mod` 10 < 10) as Hr by (apply Z.mod_pos_bound; lia).
  destruct (Z.to_nat (n `mod` 10)) as [|[|[|[|[|[|[|[|[|[|k]]]]]]]]]] eqn:Hk;
    try reflexivity.
  lia.
Qed.

Lemma year_digits_pad4 (y : Z) : 1000 ≤ y → year_digits y = pad4 y.
Proof.
  intros Hy. unfold year_digits.
  destruct (Z.ltb_spec y 10); [lia|]. destruct (Z.ltb_spec y 100); [lia|].
  destruct (Z.ltb_spec y 1000); [lia|done].
Qed.

Lemma is_bucket_strftime (dt : datetime) :
  1000 ≤ year dt → is_bucket (strftime_Ymd dt) = true.
Proof.
  intros Hy. unfold is_bucket, strftime_Ymd, chars, str.
  rewrite String.list_ascii_of_string_of_list_ascii, (year_digits_pad4 _ Hy).
  unfold pad4, pad2. cbn [app forallb]. by rewrite !is_digit_digit_char.
Qed.

Lemma is_bucket_year (dt : datetime) :
  is_bucket (strftime_Ymd dt) = true → 1000 ≤ year dt.
Proof.
  unfold is_bucket, strftime_Ymd, chars, str, year_digits.
  rewrite String.list_ascii_of_string_of_list_ascii.
  destruct (Z.ltb_spec (year dt) 10); [done|].
  destruct (Z.ltb_spec (year dt) 100); [done|].
  destruct (Z.ltb_spec (year dt) 1000); [done|]. done.
Qed.

Lemma fromisoformat_raises (s : string) (e : exn) :
  fromisoformat s = Raise e → e = ValueError.
Proof.
  unfold fromisoformat. destruct (parse_isoformat (chars s)); [done|].
  by intros [= <-].
Qed.

Lemma parse_isoformat_valid (s : list ascii) (dt : datetime) :
  parse_isoformat s = Some dt →
  valid_date (year dt) (month dt) (day dt) = true.
Proof.
  unfold parse_isoformat.
  destruct (parse_isoformat_date s) as [[[[y m] d] rest]|]; [|done]. simpl.
  destruct (match rest with [] => _ | _ :: t => _ end)
    as [[[[[hh mm] ss] us] tz]|]; [|done]. simpl.
  destruct (valid_date y m d) eqn:Hv; [|done]. simpl.
  destruct (valid_time hh mm ss); [|done]. by intros [= <-].
Qed.

Lemma get_date_subfolder_str (s : string) :
  get_date_subfolder (PyStr s) =
    match parse_isoformat (chars (remove_char "Z" s)) with
    | Some dt => Ok (strftime_Ymd dt)
    | None => Ok "unknown-date"%string
    end.
Proof.
  unfold get_date_subfolder, fromisoformat.
  by destruct (parse_isoformat _).
Qed.

Lemma chars_append (s1 s2 : string) :
  chars (String.append s1 s2) = chars s1 ++ chars s2.
Proof. induction s1 as [|a s1 IH]; simpl; [done|]. by rewrite IH. Qed.

Lemma remove_char_trailing (c : ascii) (s : string) :
  remove_char c (String.append s (String c "")) = remove_char c s.
Proof.
  unfold remove_char. rewrite chars_append, filter_app. simpl.
  rewrite filter_cons_False by (by intros []). by rewrite filter_nil, app_nil_r.
Qed.

(** C8. Date-hint resolution: the timestamp [2024-01-15T10:12:30]
    resolves to the bucket [2024-01-15]; the empty string, [not-a-date]
    and every string whose parsing raises resolve to [unknown-date]; a
    trailing [Z] changes nothing; a string never makes the function raise;
    and the timestamps [main] and [parse_images_from_posts] substitute for
    an absent date resolve to [unknown-date]. *)
Theorem date_hint_resolution :
  get_date_subfolder (PyStr "2024-01-15T10:12:30") = Ok "2024-01-15"%string ∧
  get_date_subfolder (PyStr "") = Ok "unknown-date"%string ∧
  get_date_subfolder (PyStr "not-a-date") = Ok "unknown-date"%string ∧
  (∀ s, fromisoformat (remove_char "Z" s) = Raise ValueError →
     get_date_subfolder (PyStr s) = Ok "unknown-date"%string) ∧
  (∀ s, get_date_subfolder (PyStr (String.append s "Z"))
        = get_date_subfolder (PyStr s)) ∧
  get_date_subfolder (PyStr "2024-01-15T10:12:30Z") = Ok "2024-01-15"%string ∧
  (∀ s, ∃ b, get_date_subfolder (PyStr s) = Ok b) ∧
  get_date_subfolder (PyStr (or_str None "")) = Ok "unknown-date"%string ∧
  get_date_subfolder (PyStr (or_str None "unknown-date"))
    = Ok "unknown-date"%string.
Proof.
  split_and!.
  - by vm_compute.
  - by vm_compute.
  - by vm_compute.
  - intros s Hs. unfold get_date_subfolder. by rewrite Hs.
  - intros s. by rewrite !get_date_subfolder_str, remove_char_trailing.
  - by vm_compute.
  - intros s. rewrite get_date_subfolder_str.
    destruct (parse_isoformat _); eauto.
  - by vm_compute.
  - by vm_compute.
Qed.

(** C10. The date hint on strings and beyond.  For every string it
    returns the sentinel or what [strftime] prints for the valid calendar
    date the parser found, and raises nothing, the parser raising nothing
    but the [ValueError] that is caught; the result has the shape
    [YYYY-MM-DD] exactly when the year is 1000 or later.  For the year 1
    it has not: [0001-01-01] gives [1-01-01], against the docstring of
    the function.  For an argument that is not a string the function
    raises [AttributeError], which is not caught. *)
Theorem date_hint_total_on_strings :
  (∀ s, ∃ b,
     get_date_subfolder (PyStr s) = Ok b ∧
     (b = "unknown-date"%string ∨
      ∃ dt, fromisoformat (remove_char "Z" s) = Ok dt ∧
            b = strftime_Ymd dt ∧
            valid_date (year dt) (month dt) (day dt) = true ∧
            (is_bucket b = true ↔ 1000 ≤ year dt))) ∧
  (∀ s e, fromisoformat s = Raise e → e = ValueError) ∧
  (∀ v, (∀ s, v ≠ PyStr s) → get_date_subfolder v = Raise AttributeError) ∧
  get_date_subfolder (PyStr "0001-01-01") = Ok "1-01-01"%string ∧
  is_bucket "1-01-01" = false.
Proof.
  split_and!.
  - intros s. rewrite get_date_subfolder_str. unfold fromisoformat.
    destruct (parse_isoformat _) as [dt|] eqn:Hp; [|eauto].
    exists (strftime_Ymd dt). split; [done|]. right.
    exists dt. split_and!; [done|done|by eapply parse_isoformat_valid|].
    split; [apply is_bucket_year|apply is_bucket_strftime].
  - apply fromisoformat_raises.
  - intros [| | |s] Hv; try done. by destruct (Hv s).
  - by vm_compute.
  - by vm_compute.
Qed.

(** ** The theorems at concrete endpoints *)

Lemma endless_loop_unfinished (fuel : nat) :
  ∀ st,
    (∀ k, k ∈ all_seen_ids st → ∃ n, k = Some n ∧ n < page_num st) →
    finished (media_loop endless_get fuel tt st) = false.
Proof.
  induction fuel as [|fuel IH]; intros st Hseen; [done|].
  simpl. unfold scan_page. simpl.
  destruct (decide (Some (page_num st) ∈ all_seen_ids st)) as [Hin|Hnin].
  - destruct (Hseen _ Hin) as (n & [= <-] & Hlt). lia.
  - simpl. apply IH. simpl. intros k [Hk|Hk]%elem_of_union.
    + apply elem_of_singleton in Hk as ->. exists (page_num st).
      split; [done|lia].
    + destruct (Hseen k Hk) as (n & -> & Hlt). exists n. split; [done|lia].
Qed.

(** Against an endpoint whose ids never run out, the primary paginator
    leaves its loop for no amount of fuel. *)
Lemma endless_media_never_finishes :
  ¬ ∃ fuel, finished (fetch_all_media_items endless_get fuel tt) = true.
Proof.
  intros [fuel Hfin]. unfold fetch_all_media_items in Hfin.
  rewrite endless_loop_unfinished in Hfin; [done|].
  simpl. intros k Hk. by apply elem_of_empty in Hk.
Qed.

(** The secondary paginator emits the post served on two pages twice. *)
Lemma posts_emit_duplicates :
  finished (fetch_all_posts repeating_get 3 tt) = true ∧
  ¬ NoDup (item_id <$> all_posts (final (fetch_all_posts repeating_get 3 tt))).
Proof.
  split; [reflexivity|].
  assert (item_id <$> all_posts (final (fetch_all_posts repeating_get 3 tt))
          = [Some 7; Some 7]) as -> by reflexivity.
  intros [Hnin _]%NoDup_cons. apply Hnin. left.
Qed.

(** Rejected at page size 20, the secondary paginator stops at once,
    where the primary one, rejected at 100, asks again for 50. *)
Lemma posts_stop_on_400 :
  trace (fetch_all_posts rejecting_get 5 tt) = [Exchange 1 20 (Reply 400 [])] ∧
  finished (fetch_all_posts rejecting_get 5 tt) = true ∧
  (¬ ∃ fuel e2 rest,
       trace (fetch_all_posts rejecting_get fuel tt)
         = Exchange 1 20 (Reply 400 []) :: e2 :: rest) ∧
  take 2 (trace (fetch_all_media_items rejecting_get 5 tt))
    = [Exchange 1 100 (Reply 400 []); Exchange 1 50 (Reply 400 [])].
Proof.
  split_and!; [reflexivity|reflexivity| |reflexivity].
  intros (fuel & e2 & rest & Ht). by destruct fuel.
Qed.

Lemma no_duplicate_ids_witness :
  NoDup (item_id <$> all_items (final (fetch_all_media_items small_get 9 tt))) ∧
  all_posts (final (fetch_all_posts repeating_get 3 tt))
    = items_served (trace (fetch_all_posts repeating_get 3 tt)).
Proof.
  split.
  - apply (no_duplicate_ids small_get 9 tt).
  - apply (no_duplicate_ids repeating_get 3 tt).
Defined.

Lemma shrink_monotonicity_witness :
  trace (fetch_all_media_items rejecting_get 2 tt)
    = [Exchange 1 100 (Reply 400 []); Exchange 1 50 (Reply 400 [])] ∧
  (1 < 100 ∧ 50 = 100 `div` 2 ∧ 1 = 1).
Proof.
  split; [reflexivity|].
  destruct (shrink_monotonicity rejecting_get 2 tt) as (_ & Hnext & _).
  destruct (Hnext [] (Exchange 1 100 (Reply 400 []))
              (Exchange 1 50 (Reply 400 [])) []) as [_ Hhalf];
    [reflexivity|].
  apply Hhalf. exists []. reflexivity.
Defined.

Lemma small_get_bounded :
  bounded_ids small_get {[Some 1; Some 2; Some 3; None]}.
Proof.
  intros [] p n code data [] Hget it Hit. unfold small_get in Hget.
  destruct (n >? 25).
  { injection Hget as <- <-. by apply elem_of_nil in Hit. }
  destruct (p =? 1).
  { injection Hget as <- <-. unfold with_id, without_id in Hit. set_solver. }
  destruct (p =? 2).
  { injection Hget as <- <-. unfold with_id, without_id in Hit. set_solver. }
  injection Hget as <- <-. unfold with_id in Hit. set_solver.
Qed.

Lemma media_termination_witness :
  finished (fetch_all_media_items small_get 11 tt) = true.
Proof.
  apply (proj2 (media_termination small_get)
           {[Some 1; Some 2; Some 3; None]} small_get_bounded tt 11%nat).
  vm_compute. lia.
Defined.

Lemma early_termination_witness :
  finished (fetch_all_media_items small_get 9 tt) = true ∧
  all_items (final (fetch_all_media_items small_get 9 tt))
    = all_items (final (fetch_all_media_items small_get 4 tt)).
Proof.
  destruct (early_termination_on_stagnation small_get 9 tt
              [Exchange 1 100 (Reply 400 []);
               Exchange 1 50 (Reply 400 []);
               Exchange 1 25
                 (Reply 200 [with_id 1; with_id 2;
                             without_id "https://cdn.test/a.png"]);
               Exchange 2 25
                 (Reply 200 [with_id 2; with_id 3;
                             without_id "https://cdn.test/b.png"])]
              []
              (Exchange 3 25 (Reply 200 [with_id 3]))
              [with_id 3])
    as (_ & Hfin & _ & Hitems & _).
  - reflexivity.
  - reflexivity.
  - discriminate.
  - intros it Hit. apply list_elem_of_singleton in Hit. rewrite Hit.
    apply (bool_decide_unpack _). vm_compute. exact I.
  - split; [exact Hfin|exact Hitems].
Defined.


Lemma posts_pagination_witness :
  finished (fetch_all_posts rejecting_get 3 tt) = true.
Proof.
  destruct (posts_pagination rejecting_get 3 tt) as (_ & Hstop & _).
  destruct (Hstop [] (Exchange 1 20 (Reply 400 [])) []) as [_ Hfin].
  - reflexivity.
  - intros (data & Hr & _). discriminate Hr.
  - exact Hfin.
Defined.

Lemma reference_normalization_witness :
  resolve_img_url "https://site.test" "/media/x.png"
    = urljoin "https://site.test" "/media/x.png".
Proof.
  destruct (reference_normalization "https://site.test" one_img)
    as (_ & Hrel & _).
  apply Hrel; reflexivity.
Defined.

Lemma date_hint_resolution_witness :
  get_date_subfolder (PyStr "2024-13-45T10:12:30") = Ok "unknown-date"%string.
Proof.
  destruct date_hint_resolution as (_ & _ & _ & Hfail & _).
  apply Hfail. vm_compute. reflexivity.
Defined.

Lemma id_less_items_witness :
  visit ([without_id "https://cdn.test/a.png"], {[None]}, [])
        (without_id "https://cdn.test/b.png")
    = ([without_id "https://cdn.test/a.png"], {[None]}, []).
Proof.
  destruct (id_less_items_share_one_key small_get 9 tt) as (_ & _ & Hdrop & _).
  apply Hdrop; [reflexivity|]. apply elem_of_singleton. reflexivity.
Defined.

Lemma date_hint_total_witness :
  get_date_subfolder (PyInt 20240115) = Raise AttributeError.
Proof.
  destruct date_hint_total_on_strings as (_ & _ & Hother & _).
  apply Hother. intros s Hs. discriminate Hs.
Defined.

(** * Further properties of the program *)

(** ** Strings *)

Lemma list_filter_all_eq {A} (P : A → Prop) `{!∀ x, Decision (P x)}
    (l : list A) :
  (∀ x, x ∈ l → P x) → filter P l = l.
Proof.
  induction l as [|x l IH]; intros Hl; [done|].
  rewrite filter_cons_True by (apply Hl; left).
  f_equal. apply IH. intros y Hy. apply Hl. by right.
Qed.

Lemma chars_str (l : list ascii) : chars (str l) = l.
Proof. apply String.list_ascii_of_string_of_list_ascii. Qed.

Lemma str_chars (s : string) : str (chars s) = s.
Proof. apply String.string_of_list_ascii_of_string. Qed.

Lemma chars_inj (s1 s2 : string) : chars s1 = chars s2 → s1 = s2.
Proof. intros H. by rewrite <- (str_chars s1), H, str_chars. Qed.

Lemma is_char_true (c x : ascii) : is_char c x = true ↔ x = c.
Proof. unfold is_char. apply Ascii.eqb_eq. Qed.

Lemma startswith_slash_chars (s : string) :
  startswith "/" s = match chars s with
                     | c :: _ => is_char "/" c
                     | [] => false
                     end.
Proof.
  unfold startswith. destruct s as [|a s]; [done|]. cbn [String.prefix].
  unfold chars. cbn [String.list_ascii_of_string]. unfold is_char.
  destruct (ascii_dec "/" a) as [<-|Hne].
  - by destruct s.
  - symmetry. apply Ascii.eqb_neq. congruence.
Qed.

Lemma endswith_slash_last (s : string) :
  endswith_slash s = true ↔ last (chars s) = Some "/"%char.
Proof.
  unfold endswith_slash. rewrite <- (rev_involutive (chars s)) at 2.
  destruct (rev (chars s)) as [|c l]; [done|].
  simpl. rewrite last_snoc, is_char_true. split; [by intros ->|by intros [= ->]].
Qed.

Lemma break_at_spec (p : ascii → bool) (s : list ascii) :
  (break_at p s).1 ++ (break_at p s).2 = s ∧
  Forall (λ c, p c = false) (break_at p s).1 ∧
  match (break_at p s).2 with
  | c :: _ => p c = true
  | [] => True
  end.
Proof.
  induction s as [|c s IH]; simpl; [by split_and!|].
  destruct (p c) eqn:Hp; simpl; [by split_and!|].
  destruct (break_at p s) as [a b]. simpl in *.
  destruct IH as (<- & Ha & Hb). split_and!; [done| |done].
  by constructor.
Qed.

(** ** [clean_filename] *)

Lemma chars_clean_filename (filename : string) :
  chars (clean_filename filename)
    = (λ c, if is_invalid c then "_"%char else c) <$> chars filename.
Proof. unfold clean_filename. by rewrite chars_str. Qed.

Lemma is_invalid_true (c : ascii) : is_invalid c = true ↔ c ∈ invalid_chars.
Proof. unfold is_invalid. apply bool_decide_eq_true. Qed.

Lemma is_invalid_false (c : ascii) : is_invalid c = false ↔ c ∉ invalid_chars.
Proof. unfold is_invalid. apply bool_decide_eq_false. Qed.

Lemma clean_filename_valid (filename : string) (c : ascii) :
  c ∈ chars (clean_filename filename) → c ∉ invalid_chars.
Proof.
  rewrite chars_clean_filename. intros (x & -> & _)%list_elem_of_fmap.
  destruct (is_invalid x) eqn:Hx; [|by apply is_invalid_false].
  by apply is_invalid_false.
Qed.

(** X1. A cleaned file name has the length of the name it comes from and
    holds none of the nine characters of the pattern: each of them has
    become an underscore, every other character is where it was. *)
Theorem clean_filename_safe (filename : string) :
  length (chars (clean_filename filename)) = length (chars filename) ∧
  (∀ c, c ∈ chars (clean_filename filename) → c ∉ invalid_chars) ∧
  (∀ i c, chars filename !! i = Some c →
     chars (clean_filename filename) !! i
       = Some (if bool_decide (c ∈ invalid_chars) then "_"%char else c)).
Proof.
  split_and!.
  - rewrite chars_clean_filename. apply length_fmap.
  - apply clean_filename_valid.
  - intros i c Hi. rewrite chars_clean_filename, list_lookup_fmap, Hi. done.
Qed.

(** X2. Cleaning is idempotent, and the names it leaves as they are are
    exactly those that hold none of the nine characters. *)
Theorem clean_filename_idempotent (filename : string) :
  clean_filename (clean_filename filename) = clean_filename filename ∧
  (clean_filename filename = filename ↔
   ∀ c, c ∈ chars filename → c ∉ invalid_chars).
Proof.
  assert (∀ s, (∀ c, c ∈ chars s → c ∉ invalid_chars) → clean_filename s = s)
    as Hfix.
  { intros s Hs. apply chars_inj. rewrite chars_clean_filename.
    rewrite <- (list_fmap_id (chars s)) at 2. apply list_fmap_ext.
    intros i c Hc%list_elem_of_lookup_2. apply Hs, is_invalid_false in Hc.
    by rewrite Hc. }
  split.
  - apply Hfix. apply clean_filename_valid.
  - split; [|apply Hfix]. intros <-. apply clean_filename_valid.
Qed.

(** ** The local file of a download *)

Lemma sub_nonword_nonempty (s : list ascii) :
  s ≠ [] → sub_nonword false s ≠ [].
Proof. destruct s as [|c s]; [done|]. simpl. by destruct (is_word c). Qed.

Lemma no_slash_startswith (s : string) :
  "/"%char ∉ chars s → startswith "/" s = false.
Proof.
  rewrite startswith_slash_chars. destruct (chars s) as [|c l]; [done|].
  intros Hc. destruct (is_char "/" c) eqn:Hs; [|done].
  apply is_char_true in Hs as ->. exfalso. apply Hc. left.
Qed.

Lemma no_slash_endswith (a b : string) :
  b ≠ ""%string → "/"%char ∉ chars b →
  endswith_slash (String.append a b) = false.
Proof.
  intros Hb Hs. apply not_true_is_false. rewrite endswith_slash_last.
  rewrite chars_append, last_app.
  destruct (last (chars b)) as [c|] eqn:Hl.
  - intros [= ->]. apply Hs. apply last_Some in Hl as [l ->].
    apply elem_of_app. right. left.
  - apply last_None in Hl. exfalso. apply Hb. by apply chars_inj.
Qed.

Lemma append_assoc (a b c : string) :
  String.append (String.append a b) c = String.append a (String.append b c).
Proof.
  apply chars_inj. rewrite !chars_append. symmetry. apply app_assoc.
Qed.

Lemma path_join_plain (a b : string) :
  a ≠ ""%string → endswith_slash a = false → "/"%char ∉ chars b →
  path_join a b = String.append a (String.append "/" b).
Proof.
  intros Ha He Hb. unfold path_join.
  rewrite (no_slash_startswith b Hb), He.
  by destruct (String.eqb_spec a "").
Qed.

Lemma invalid_slash : "/"%char ∈ invalid_chars.
Proof. unfold invalid_chars. set_solver. Qed.

Lemma download_filename_no_slash (url : string) :
  "/"%char ∉ chars (download_filename url).
Proof.
  unfold download_filename. intros Hin.
  apply clean_filename_valid in Hin. apply Hin, invalid_slash.
Qed.

(** X3. The local file name of a download holds none of the nine characters
    of the pattern, a slash in particular, and is empty only for the
    empty URL. *)
Theorem download_filename_safe (url : string) :
  (∀ c, c ∈ chars (download_filename url) → c ∉ invalid_chars) ∧
  ("/"%char ∉ chars (download_filename url)) ∧
  (url ≠ ""%string → download_filename url ≠ ""%string).
Proof.
  split_and!.
  - intros c. unfold download_filename. apply clean_filename_valid.
  - apply download_filename_no_slash.
  - intros Hurl Hempty.
    assert (length (chars (download_filename url)) = 0%nat) as Hlen
      by (by rewrite Hempty).
    unfold download_filename in Hlen.
    rewrite chars_clean_filename, length_fmap, chars_str in Hlen.
    destruct (basename (u_path (urlparse (chars url) []))) as [|c l] eqn:Hb;
      [|done].
    apply length_zero_iff_nil in Hlen. revert Hlen.
    apply sub_nonword_nonempty. intros Hc. apply Hurl. by apply chars_inj.
Qed.

(** ** The configuration *)

Lemma rstrip_slash_last (s : list ascii) :
  last (Config.rstrip_slash s) ≠ Some "/"%char.
Proof.
  unfold Config.rstrip_slash.
  destruct (break_at_spec (λ c, negb (is_char "/" c)) (rev s)) as (_ & _ & Hb).
  destruct (break_at _ (rev s)).2 as [|c l]; [done|].
  simpl. rewrite last_snoc. intros [= ->]. done.
Qed.

Lemma last_drop_Some {A} (k : nat) (l : list A) (x : A) :
  last (drop k l) = Some x → last l = Some x.
Proof.
  intros Hd. rewrite <- (take_drop k l), last_app. by rewrite Hd.
Qed.

Lemma split_netloc_no_slash (url : list ascii) :
  "/"%char ∉ (split_netloc url).1.
Proof.
  assert ("/"%char ∉ @nil ascii) as Hnil by apply not_elem_of_nil.
  unfold split_netloc. destruct url as [|c1 [|c2 rest]]; [done..|].
  destruct (is_char "/" c1 && is_char "/" c2); [|done].
  destruct (break_at_spec
              (λ c, is_char "/" c || is_char "?" c || is_char "#" c) rest)
    as (_ & Hf & _).
  intros Hin. eapply Forall_forall in Hf; [|exact Hin]. done.
Qed.

Lemma u_netloc_urlparse (url default : list ascii) :
  u_netloc (urlparse url default)
    = (split_netloc (split_scheme url default).2).1.
Proof.
  unfold urlparse. destruct (split_scheme url default) as [scheme u1].
  simpl. destruct (split_netloc u1) as [netloc u2].
  destruct (split_once "#" u2) as [u3 fragment].
  destruct (split_once "?" u3) as [u4 query].
  by destruct (if among uses_params scheme then _ else _).
Qed.

Lemma DOMAIN_last (argv1 : string) :
  last (chars (Config.DOMAIN argv1)) ≠ Some "/"%char.
Proof.
  unfold Config.DOMAIN.
  destruct (u_netloc _) as [|c netloc] eqn:Hn.
  - unfold Config.strip_http.
    assert (last (chars (Config.SITE_URL argv1)) ≠ Some "/"%char) as Hsite.
    { unfold Config.SITE_URL. rewrite chars_str. apply rstrip_slash_last. }
    destruct (startswith "http://" _);
      [rewrite chars_str; intros H; by apply last_drop_Some in H|].
    destruct (startswith "https://" _);
      [rewrite chars_str; intros H; by apply last_drop_Some in H|done].
  - rewrite chars_str. intros Hl. apply last_Some in Hl as [l Hl].
    pose proof (split_netloc_no_slash
                  (split_scheme (chars (Config.SITE_URL argv1)) []).2) as Hs.
    rewrite <- u_netloc_urlparse, Hn, Hl in Hs.
    apply Hs. apply elem_of_app. right. left.
Qed.

Lemma BASE_FOLDER_plain (argv1 : string) :
  Config.BASE_FOLDER argv1 ≠ ""%string ∧
  endswith_slash (Config.BASE_FOLDER argv1) = false.
Proof.
  unfold Config.BASE_FOLDER. split; [done|].
  apply not_true_is_false. rewrite endswith_slash_last, chars_append, last_app.
  destruct (last (chars (Config.DOMAIN argv1))) as [c|] eqn:Hl; [|done].
  intros [= ->]. by apply (DOMAIN_last argv1).
Qed.

Lemma is_digit_not_slash (c : ascii) : is_digit c = true → c ≠ "/"%char.
Proof. by intros Hd ->. Qed.

(** What [strftime] prints holds digits and dashes only. *)
Lemma strftime_chars (dt : datetime) (c : ascii) :
  c ∈ chars (strftime_Ymd dt) → c = "-"%char ∨ is_digit c = true.
Proof.
  unfold strftime_Ymd. rewrite chars_str.
  assert (∀ l : list ascii,
            (∀ x, x ∈ l → is_digit x = true) →
            c ∈ l ++ "-"%char :: pad2 (month dt) ++ "-"%char :: pad2 (day dt) →
            c = "-"%char ∨ is_digit c = true) as Hgen.
  { intros l Hl. unfold pad2. cbn [app].
    rewrite elem_of_app, !elem_of_cons, elem_of_nil.
    intros [Hc|[->|[->|[->|[->|[->|[->|[]]]]]]]];
      auto using is_digit_digit_char. }
  unfold year_digits.
  destruct (year dt <? 10); [|destruct (year dt <? 100);
                                [|destruct (year dt <? 1000)]];
    apply Hgen; unfold pad4; intros x; rewrite ?elem_of_cons, elem_of_nil;
    intros Hx; repeat destruct Hx as [->|Hx]; try done;
    apply is_digit_digit_char.
Qed.

Lemma strftime_no_slash (dt : datetime) :
  ("/"%char ∉ chars (strftime_Ymd dt)) ∧ strftime_Ymd dt ≠ ""%string.
Proof.
  split.
  - intros [|Hd]%strftime_chars; [done|]. by vm_compute in Hd.
  - unfold strftime_Ymd, year_digits. intros Hs.
    apply (f_equal chars) in Hs. rewrite chars_str in Hs.
    by destruct (year dt <? 10), (year dt <? 100), (year dt <? 1000).
Qed.

(** X5. Whatever the command line, the URL and the timestamp, the path of
    the local file is the base folder, the date bucket and the file
    name, joined by single slashes, and neither the bucket nor the file
    name holds a slash.  The file name can still be [..], as for a URL
    whose path ends in [/..]: the path string does not by itself keep the
    file inside the folder of its bucket. *)
Theorem download_filepath_in_bucket (argv1 url date_str : string) :
  (∃ bucket,
     get_date_subfolder (PyStr date_str) = Ok bucket ∧
     ("/"%char ∉ chars bucket) ∧
     ("/"%char ∉ chars (download_filename url)) ∧
     download_filepath (Config.BASE_FOLDER argv1) url date_str
       = Ok (String.append (Config.BASE_FOLDER argv1)
               (String.append "/"
                  (String.append bucket
                     (String.append "/" (download_filename url)))))) ∧
  download_filename "https://site.test/uploads/.." = ".."%string.
Proof.
  split; [|by vm_compute].
  assert (∃ bucket,
            get_date_subfolder (PyStr date_str) = Ok bucket ∧
            ("/"%char ∉ chars bucket) ∧ bucket ≠ ""%string)
    as (bucket & Hget & Hslash & Hne).
  { rewrite get_date_subfolder_str. destruct (parse_isoformat _) as [dt|].
    - eexists. split; [done|]. apply strftime_no_slash.
    - eexists. split; [done|]. split; [|done]. vm_compute. set_solver. }
  destruct (BASE_FOLDER_plain argv1) as [Hbase Hend].
  pose proof (download_filename_no_slash url) as Hfile.
  exists bucket. split_and!; [done..|].
  unfold download_filepath. rewrite Hget. f_equal.
  rewrite (path_join_plain _ bucket Hbase Hend Hslash).
  rewrite path_join_plain; [|by destruct (Config.BASE_FOLDER argv1)| |done].
  - by rewrite !append_assoc.
  - rewrite <- append_assoc. by apply no_slash_endswith.
Qed.

Lemma rstrip_slash_snoc (s : list ascii) :
  Config.rstrip_slash (s ++ ["/"%char]) = Config.rstrip_slash s.
Proof.
  unfold Config.rstrip_slash. rewrite rev_app_distr. simpl.
  by destruct (break_at _ (rev s)).
Qed.

Lemma rstrip_slash_fixed (s : list ascii) :
  last s ≠ Some "/"%char → Config.rstrip_slash s = s.
Proof.
  unfold Config.rstrip_slash. intros Hl.
  destruct (rev s) as [|c l] eqn:Hr.
  - simpl. by rewrite <- (rev_involutive s), Hr.
  - cbn [break_at]. destruct (is_char "/" c) eqn:Hc; cbn [negb].
    + exfalso. apply Hl. apply is_char_true in Hc as ->.
      rewrite <- (rev_involutive s), Hr. simpl. apply last_snoc.
    + cbn [snd]. by rewrite <- Hr, rev_involutive.
Qed.

(** X6. A trailing slash of the command-line argument changes nothing: the
    site URL, the two endpoints and the base folder are the same with
    and without it, and the site URL is already stripped. *)
Theorem config_ignores_trailing_slash (argv1 : string) :
  Config.SITE_URL (String.append argv1 "/") = Config.SITE_URL argv1 ∧
  Config.SITE_URL (Config.SITE_URL argv1) = Config.SITE_URL argv1 ∧
  endswith_slash (Config.SITE_URL argv1) = false ∧
  Config.MEDIA_API (String.append argv1 "/") = Config.MEDIA_API argv1 ∧
  Config.POSTS_API (String.append argv1 "/") = Config.POSTS_API argv1 ∧
  Config.BASE_FOLDER (String.append argv1 "/") = Config.BASE_FOLDER argv1.
Proof.
  assert (Config.SITE_URL (String.append argv1 "/") = Config.SITE_URL argv1)
    as Hsite.
  { unfold Config.SITE_URL. rewrite chars_append. f_equal.
    apply rstrip_slash_snoc. }
  assert (last (chars (Config.SITE_URL argv1)) ≠ Some "/"%char) as Hlast.
  { unfold Config.SITE_URL. rewrite chars_str. apply rstrip_slash_last. }
  split_and!.
  - done.
  - unfold Config.SITE_URL at 1. by rewrite rstrip_slash_fixed, str_chars.
  - apply not_true_is_false. by rewrite endswith_slash_last.
  - unfold Config.MEDIA_API. by rewrite Hsite.
  - unfold Config.POSTS_API. by rewrite Hsite.
  - unfold Config.BASE_FOLDER, Config.DOMAIN. by rewrite Hsite.
Qed.

(** X7. When the site URL names a host, the base folder is [downloaded_]
    followed by that host and holds no slash: it is one directory. *)
Theorem base_folder_of_host (argv1 : string) :
  u_netloc (urlparse (chars (Config.SITE_URL argv1)) []) ≠ [] →
  Config.BASE_FOLDER argv1
    = String.append "downloaded_"
        (str (u_netloc (urlparse (chars (Config.SITE_URL argv1)) []))) ∧
  ("/"%char ∉ chars (Config.BASE_FOLDER argv1)).
Proof.
  intros Hn. unfold Config.BASE_FOLDER, Config.DOMAIN.
  destruct (u_netloc _) as [|c netloc] eqn:Hnet; [done|].
  split; [done|]. rewrite chars_append, chars_str.
  intros [Hin|Hin]%elem_of_app.
  - vm_compute in Hin. set_solver.
  - pose proof (split_netloc_no_slash
                  (split_scheme (chars (Config.SITE_URL argv1)) []).2) as Hs.
    rewrite <- u_netloc_urlparse, Hnet in Hs. done.
Qed.

Lemma base_folder_of_host_witness :
  Config.BASE_FOLDER "https://site.test:8080/blog/"
    = "downloaded_site.test:8080"%string.
Proof.
  apply (base_folder_of_host "https://site.test:8080/blog/").
  vm_compute. discriminate.
Defined.

(** X8. For a site URL with scheme [http] or [https] the two endpoints are
    the scheme and the host of the site URL followed by the REST path:
    the path, query and fragment of the site URL play no part. *)
Theorem api_endpoints_of_host (argv1 : string) :
  u_scheme (urlparse (chars (Config.SITE_URL argv1)) []) = chars "http" ∨
  u_scheme (urlparse (chars (Config.SITE_URL argv1)) []) = chars "https" →
  Config.MEDIA_API argv1
    = str (u_scheme (urlparse (chars (Config.SITE_URL argv1)) []) ++
           chars "://" ++
           u_netloc (urlparse (chars (Config.SITE_URL argv1)) []) ++
           chars "/wp-json/wp/v2/media") ∧
  Config.POSTS_API argv1
    = str (u_scheme (urlparse (chars (Config.SITE_URL argv1)) []) ++
           chars "://" ++
           u_netloc (urlparse (chars (Config.SITE_URL argv1)) []) ++
           chars "/wp-json/wp/v2/posts").
Proof.
  intros Hscheme. unfold Config.MEDIA_API, Config.POSTS_API, urljoin.
  destruct (String.eqb_spec (Config.SITE_URL argv1) "") as [Hempty|_].
  { rewrite Hempty in Hscheme. vm_compute in Hscheme.
    by destruct Hscheme. }
  unfold urljoin_parts.
  destruct (urlparse (chars (Config.SITE_URL argv1)) [])
    as [scheme netloc path params query fragment].
  simpl in Hscheme.
  destruct Hscheme as [-> | ->]; destruct netloc; by vm_compute.
Qed.

Lemma api_endpoints_of_host_witness :
  Config.MEDIA_API "https://site.test/blog/"
    = "https://site.test/wp-json/wp/v2/media"%string.
Proof.
  apply (api_endpoints_of_host "https://site.test/blog/").
  right. vm_compute. reflexivity.
Defined.

(** ** The date bucket and the timestamp *)

Lemma is_digit_range (c : ascii) :
  is_digit c = true → (48 ≤ nat_of_ascii c ≤ 57)%nat.
Proof.
  unfold is_digit. intros [H1 H2]%andb_prop.
  apply Nat.leb_le in H1, H2. lia.
Qed.

Lemma digit_val_range (c : ascii) : is_digit c = true → 0 ≤ digit_val c ≤ 9.
Proof. intros Hc%is_digit_range. unfold digit_val. lia. Qed.

Lemma digit_char_digit_val (c : ascii) (n : Z) :
  is_digit c = true → n `mod` 10 = digit_val c → digit_char n = c.
Proof.
  intros Hc%is_digit_range Hn. unfold digit_char. rewrite Hn.
  unfold digit_val.
  replace (48 + Z.to_nat (Z.of_nat (nat_of_ascii c) - 48))%nat
    with (nat_of_ascii c) by lia.
  apply ascii_nat_embedding.
Qed.

Lemma digit_val_digit_char (n : Z) : digit_val (digit_char n) = n `mod` 10.
Proof.
  unfold digit_val, digit_char.
  assert (0 ≤ n `mod` 10 < 10) by (apply Z.mod_pos_bound; lia).
  rewrite nat_ascii_embedding by lia. lia.
Qed.

Lemma parse_digits_2 (s rest : list ascii) (v : Z) :
  parse_digits 2 0 s = Some (v, rest) → s = pad2 v ++ rest ∧ 0 ≤ v ≤ 99.
Proof.
  destruct s as [|c1 [|c2 s]]; simpl; try done.
  - by destruct (is_digit c1).
  - destruct (is_digit c1) eqn:H1; [|done].
    destruct (is_digit c2) eqn:H2; [|done].
    intros [= <- <-].
    pose proof (digit_val_range _ H1). pose proof (digit_val_range _ H2).
    split; [|lia]. unfold pad2. simpl. f_equal; [|f_equal].
    + symmetry. apply digit_char_digit_val; [done|].
      Z.div_mod_to_equations. lia.
    + symmetry. apply digit_char_digit_val; [done|].
      Z.div_mod_to_equations. lia.
Qed.

Lemma parse_digits_4 (s rest : list ascii) (v : Z) :
  parse_digits 4 0 s = Some (v, rest) → s = pad4 v ++ rest ∧ 0 ≤ v ≤ 9999.
Proof.
  destruct s as [|c1 [|c2 [|c3 [|c4 s]]]]; simpl; try done;
    try (by repeat match goal with |- context [is_digit ?c] =>
                     destruct (is_digit c) end).
  destruct (is_digit c1) eqn:H1; [|done].
  destruct (is_digit c2) eqn:H2; [|done].
  destruct (is_digit c3) eqn:H3; [|done].
  destruct (is_digit c4) eqn:H4; [|done].
  intros [= <- <-].
  pose proof (digit_val_range _ H1). pose proof (digit_val_range _ H2).
  pose proof (digit_val_range _ H3). pose proof (digit_val_range _ H4).
  split; [|lia]. unfold pad4. simpl.
  repeat f_equal; symmetry; (apply digit_char_digit_val; [done|]);
    Z.div_mod_to_equations; lia.
Qed.

Lemma parse_pad2 (v : Z) (rest : list ascii) :
  0 ≤ v ≤ 99 → parse_digits 2 0 (pad2 v ++ rest) = Some (v, rest).
Proof.
  intros Hv. unfold pad2. cbn [app parse_digits].
  rewrite !is_digit_digit_char, !digit_val_digit_char.
  do 2 f_equal. Z.div_mod_to_equations. lia.
Qed.

Lemma parse_pad4 (v : Z) (rest : list ascii) :
  0 ≤ v ≤ 9999 → parse_digits 4 0 (pad4 v ++ rest) = Some (v, rest).
Proof.
  intros Hv. unfold pad4. cbn [app parse_digits].
  rewrite !is_digit_digit_char, !digit_val_digit_char.
  do 2 f_equal. Z.div_mod_to_equations. lia.
Qed.

Lemma expect_inv (c : ascii) (s rest : list ascii) :
  expect c s = Some rest → s = c :: rest.
Proof.
  destruct s as [|x s]; simpl; [done|].
  destruct (Ascii.eqb_spec x c) as [->|]; [|done]. by intros [= ->].
Qed.

(** What the date parser accepts begins with the date it returns,
    formatted. *)
Lemma parse_isoformat_date_inv (s rest : list ascii) (y m d : Z) :
  parse_isoformat_date s = Some (y, m, d, rest) →
  s = pad4 y ++ "-"%char :: pad2 m ++ "-"%char :: pad2 d ++ rest.
Proof.
  unfold parse_isoformat_date.
  destruct (parse_digits 4 0 s) as [[y' s1]|] eqn:Hy; cbn -[parse_digits expect]; [|discriminate].
  destruct (expect "-" s1) as [s2|] eqn:H1; cbn -[parse_digits expect]; [|discriminate].
  destruct (parse_digits 2 0 s2) as [[m' s3]|] eqn:Hm; cbn -[parse_digits expect]; [|discriminate].
  destruct (expect "-" s3) as [s4|] eqn:H2; cbn -[parse_digits expect]; [|discriminate].
  destruct (parse_digits 2 0 s4) as [[d' s5]|] eqn:Hd; cbn -[parse_digits expect]; [|discriminate].
  intros [= -> -> -> ->].
  apply parse_digits_4 in Hy as [-> _]. apply expect_inv in H1 as ->.
  apply parse_digits_2 in Hm as [-> _]. apply expect_inv in H2 as ->.
  apply parse_digits_2 in Hd as [-> _]. reflexivity.
Qed.

Lemma valid_date_bounds (y m d : Z) :
  valid_date y m d = true → 0 ≤ y ≤ 9999 ∧ 0 ≤ m ≤ 99 ∧ 0 ≤ d ≤ 99.
Proof.
  unfold valid_date. rewrite !andb_true_iff, !Z.leb_le.
  intros [[[[[? ?] ?] ?] ?] Hd].
  assert (days_in_month y m ≤ 31).
  { unfold days_in_month. destruct (m =? 2); [by destruct (is_leap y)|].
    by destruct ((m =? 4) || (m =? 6) || (m =? 9) || (m =? 11)). }
  lia.
Qed.

Lemma parse_isoformat_shape (s : list ascii) (dt : datetime) :
  parse_isoformat s = Some dt →
  0 ≤ year dt ≤ 9999 ∧
  ∃ rest, s = pad4 (year dt) ++ "-"%char :: pad2 (month dt) ++
              "-"%char :: pad2 (day dt) ++ rest.
Proof.
  unfold parse_isoformat. intros Hp.
  destruct (parse_isoformat_date s) as [[[[y m] d] rest]|] eqn:Hdate;
    simpl in Hp; [|done].
  destruct (match rest with [] => _ | _ :: t => _ end)
    as [[[[[hh mm] ss] us] tz]|]; simpl in Hp; [|done].
  destruct (valid_date y m d && valid_time hh mm ss) eqn:Hv; [|done].
  injection Hp as <-. cbn [year month day].
  apply andb_prop in Hv as [Hv _]. apply valid_date_bounds in Hv.
  split; [lia|]. exists rest. by apply parse_isoformat_date_inv.
Qed.

Lemma digit_char_thousands (y : Z) :
  0 ≤ y < 1000 → digit_char (y `div` 1000) = "0"%char.
Proof. intros Hy. by rewrite Z.div_small. Qed.

(** X9. When the timestamp, every [Z] taken out of it, begins with a
    date written [YYYY-MM-DD] whose year does not begin with a zero, the
    bucket is either the sentinel or those first ten characters: the
    time of day and the zone offset never change the bucket. *)
Theorem bucket_is_timestamp_prefix (s b : string) :
  get_date_subfolder (PyStr s) = Ok b →
  b ≠ "unknown-date"%string →
  is_bucket (str (take 10 (chars (remove_char "Z" s)))) = true →
  head (chars (remove_char "Z" s)) ≠ Some "0"%char →
  chars b = take 10 (chars (remove_char "Z" s)).
Proof.
  rewrite get_date_subfolder_str.
  destruct (parse_isoformat _) as [dt|] eqn:Hp; intros [= <-]; [|done].
  intros _ _ Hhead. apply parse_isoformat_shape in Hp as (Hy & rest & Hs).
  rewrite Hs in Hhead |- *.
  assert (1000 ≤ year dt) as Hyear.
  { destruct (decide (1000 ≤ year dt)) as [|Hlt]; [done|].
    exfalso. apply Hhead. unfold pad4. cbn [app head].
    rewrite digit_char_thousands; [done|lia]. }
  unfold strftime_Ymd. rewrite chars_str, (year_digits_pad4 _ Hyear).
  reflexivity.
Qed.

Lemma bucket_is_timestamp_prefix_witness :
  chars "2024-01-15"
    = take 10 (chars (remove_char "Z" "2024-01-15T10:12:30Z")).
Proof.
  apply (bucket_is_timestamp_prefix "2024-01-15T10:12:30Z" "2024-01-15").
  - vm_compute. reflexivity.
  - discriminate.
  - vm_compute. reflexivity.
  - vm_compute. discriminate.
Defined.

Lemma parse_isoformat_formatted (y m d : Z) :
  valid_date y m d = true →
  parse_isoformat (pad4 y ++ "-"%char :: pad2 m ++ "-"%char :: pad2 d)
    = Some (DateTime y m d 0 0 0 0 None).
Proof.
  intros Hv. destruct (valid_date_bounds _ _ _ Hv) as (Hy & Hm & Hd).
  unfold parse_isoformat, parse_isoformat_date.
  rewrite (parse_pad4 y _ Hy). cbn -[parse_digits pad2].
  rewrite (parse_pad2 m _ Hm). cbn -[parse_digits pad2].
  rewrite <- (app_nil_r (pad2 d)), (parse_pad2 d [] Hd). cbn.
  by rewrite Hv.
Qed.

Lemma remove_char_strftime (dt : datetime) :
  remove_char "Z" (strftime_Ymd dt) = strftime_Ymd dt.
Proof.
  unfold remove_char. rewrite <- (str_chars (strftime_Ymd dt)) at 2.
  f_equal. apply list_filter_all_eq.
  intros c [->|Hd]%strftime_chars; [done|]. intros ->. by vm_compute in Hd.
Qed.

(** X10. A result of [get_date_subfolder] that is the sentinel or has
    the shape [YYYY-MM-DD] is its own bucket.  This is not so of every
    result: the bucket of [0001-01-01] is [1-01-01], whose bucket is the
    sentinel. *)
Theorem bucket_of_bucket :
  (∀ s b,
     get_date_subfolder (PyStr s) = Ok b →
     b = "unknown-date"%string ∨ is_bucket b = true →
     get_date_subfolder (PyStr b) = Ok b) ∧
  get_date_subfolder (PyStr "0001-01-01") = Ok "1-01-01"%string ∧
  get_date_subfolder (PyStr "1-01-01") = Ok "unknown-date"%string.
Proof.
  split_and!; [|by vm_compute..].
  intros s b Hget [->|Hb]; [by vm_compute|].
  rewrite get_date_subfolder_str in Hget.
  destruct (parse_isoformat _) as [dt|] eqn:Hp; injection Hget as <-;
    [|by vm_compute in Hb].
  apply is_bucket_year in Hb. apply parse_isoformat_valid in Hp.
  rewrite get_date_subfolder_str, remove_char_strftime.
  unfold strftime_Ymd at 1. rewrite chars_str, (year_digits_pad4 _ Hb).
  by rewrite (parse_isoformat_formatted _ _ _ Hp).
Qed.

Lemma bucket_of_bucket_witness :
  get_date_subfolder (PyStr "2024-01-15") = Ok "2024-01-15"%string.
Proof.
  apply (proj1 bucket_of_bucket "2024-01-15T10:12:30" "2024-01-15").
  - vm_compute. reflexivity.
  - right. vm_compute. reflexivity.
Defined.

(** ** Further properties of the paginators and of [main] *)

Section MorePaginators.

Context {S : Type}.
Variable get : S → api → Z → Z → response * S.

Lemma media_loop_rejections (fuel : nat) :
  ∀ w st, 1 ≤ per_page st →
    (length (filter (λ e, rejected e = true)
                    (trace (media_loop get fuel w st)))
     ≤ Z.to_nat (Z.log2 (per_page st)) + 1)%nat.
Proof.
  induction fuel as [|fuel IH]; intros w st Hpp; simpl; [lia|].
  destruct (get w MEDIA_API _ _) as [r w'].
  destruct (media_body r st) as [st'|st'] eqn:Hb; simpl.
  - apply media_body_continue in Hb
      as [(data & -> & Hgt & ->)|(data & fresh & -> & Hne & -> & _)].
    + rewrite filter_cons_True by done. simpl.
      pose proof (log2_halve _ Hgt).
      assert (1 ≤ per_page st `div` 2) by (apply Z.div_le_lower_bound; lia).
      specialize (IH w' (PState (page_num st) (per_page st `div` 2)
                           (all_seen_ids st) (all_items st))).
      simpl in IH. specialize (IH ltac:(done)). lia.
    + rewrite filter_cons_False by done.
      apply (IH w' (PState (page_num st + 1) (per_page st) _ _) Hpp).
  - pose proof (length_filter (λ e, rejected e = true)
                  [Exchange (page_num st) (per_page st) r]).
    simpl in *. lia.
Qed.

Lemma page_sizes_halve (n : Z) :
  n ∈ page_sizes → 1 < n → n `div` 2 ∈ page_sizes.
Proof.
  unfold page_sizes. rewrite !elem_of_cons, elem_of_nil.
  intros [->|[->|[->|[->|[->|[->|[->|[]]]]]]]] Hgt;
    try lia; vm_compute; set_solver.
Qed.

Lemma media_loop_page_sizes (fuel : nat) :
  ∀ w st, per_page st ∈ page_sizes →
    Forall (λ e, ex_per_page e ∈ page_sizes)
           (trace (media_loop get fuel w st)).
Proof.
  induction fuel as [|fuel IH]; intros w st Hpp; simpl; [constructor|].
  destruct (get w MEDIA_API _ _) as [r w'].
  destruct (media_body r st) as [st'|st'] eqn:Hb; simpl.
  - constructor; [done|]. apply IH.
    apply media_body_continue in Hb
      as [(data & -> & Hgt & ->)|(data & fresh & -> & Hne & -> & _)]; simpl.
    + by apply page_sizes_halve.
    + done.
  - constructor; [done|constructor].
Qed.

(** X12. Whatever the endpoint answers, a run of the primary paginator takes
    at most seven 400 responses, and every request asks for 100, 50, 25,
    12, 6, 3 or 1 items: the page size, once halved, is never raised
    again. *)
Theorem media_rejection_budget (fuel : nat) (w : S) :
  (length (filter (λ e, rejected e = true)
                  (trace (fetch_all_media_items get fuel w))) ≤ 7)%nat ∧
  Forall (λ e, ex_per_page e ∈ page_sizes)
         (trace (fetch_all_media_items get fuel w)).
Proof.
  split.
  - pose proof (media_loop_rejections fuel w media_start) as H.
    simpl in H. unfold INITIAL_PER_PAGE in H.
    change (Z.to_nat (Z.log2 100)) with 6%nat in H. apply H. lia.
  - apply media_loop_page_sizes. simpl. unfold INITIAL_PER_PAGE, page_sizes.
    set_solver.
Qed.

Lemma media_loop_page_number (pre : list exchange) :
  ∀ fuel w st e post,
    trace (media_loop get fuel w st) = pre ++ e :: post →
    ex_page e
      = page_num st
        + Z.of_nat (length (filter (λ x, served_page x = true) pre)).
Proof.
  induction pre as [|e0 pre IH]; intros fuel w st e post Ht.
  - apply media_loop_head in Ht as (_ & _ & _ & _ & -> & _). simpl. lia.
  - simpl in Ht.
    apply media_loop_head in Ht as (fuel' & w' & -> & _ & _ & _ & Hb).
    destruct (media_body (ex_reply e0) st) as [st'|st'] eqn:Hbody;
      [|destruct Hb as (Hnil & _); by destruct pre].
    destruct Hb as (Ht' & _). symmetry in Ht'.
    rewrite (IH _ _ _ _ _ Ht').
    apply media_body_continue in Hbody
      as [(data & Hr & Hgt & ->)|(data & fresh & Hr & Hne & -> & _ & _ & Hsub)];
      simpl.
    + rewrite filter_cons_False; [done|].
      unfold served_page. rewrite Hr. by destruct data.
    + rewrite filter_cons_True; [simpl; lia|].
      unfold served_page. rewrite Hr. destruct data as [|it data]; [|done].
      apply sublist_nil_r in Hsub. done.
Qed.

(** X13. The primary paginator asks for the pages in turn and skips none: the
    page number of a request is one more than the number of non-empty
    batches received before it. *)
Theorem media_pages_in_turn (fuel : nat) (w : S)
    (pre post : list exchange) (e : exchange) :
  trace (fetch_all_media_items get fuel w) = pre ++ e :: post →
  ex_page e
    = 1 + Z.of_nat (length (filter (λ x, served_page x = true) pre)).
Proof. intros Ht. by rewrite (media_loop_page_number _ _ _ _ _ _ Ht). Qed.

Lemma media_loop_served (fuel : nat) :
  ∀ w st,
    all_seen_ids (final (media_loop get fuel w st))
      = ids_served (trace (media_loop get fuel w st)) ∪ all_seen_ids st ∧
    ∃ emitted,
      all_items (final (media_loop get fuel w st)) = all_items st ++ emitted ∧
      emitted `sublist_of` items_served (trace (media_loop get fuel w st)).
Proof.
  induction fuel as [|fuel IH]; intros w st; simpl.
  - split; [unfold ids_served; simpl; by rewrite (left_id_L ∅ (∪))|].
    exists []. by rewrite app_nil_r.
  - destruct (get w MEDIA_API _ _) as [r w'].
    destruct (media_body r st) as [st'|st'] eqn:Hb; simpl.
    + destruct (IH w' st') as (Hseen & emitted & Hitems & Hem).
      rewrite Hseen, Hitems. unfold ids_served, items_served in *. simpl.
      apply media_body_continue in Hb
        as [(data & -> & Hgt & ->)
           |(data & fresh & -> & Hne & -> & Hf & Hiff & Hsub)];
        simpl.
      * split; [done|]. by exists emitted.
      * unfold page_items at 1 3. simpl. split.
        -- rewrite fmap_app, list_to_set_app_L.
           apply set_eq. intros k.
           rewrite !elem_of_union, !elem_of_list_to_set.
           specialize (Hiff k).
           destruct (decide (k ∈ all_seen_ids st)); tauto.
        -- exists (fresh ++ emitted). split; [by rewrite app_assoc|].
           by apply sublist_app.
    + apply media_body_break in Hb as [-> Hwhy].
      unfold ids_served, items_served. simpl. rewrite app_nil_r. split.
      * destruct Hwhy as [->|[(data & -> & _)|[->|[(data & -> & _ & Hd)|
                          (code & data & -> & H200 & _)]]]];
          unfold page_items; simpl;
          try (by rewrite (left_id_L ∅ (∪))).
        -- apply set_eq. intros k. rewrite elem_of_union, elem_of_list_to_set.
           split; [by right|].
           intros [(it & -> & Hit)%list_elem_of_fmap|Hk]; [by apply Hd|done].
        -- destruct (Z.eqb_spec code 200); [done|].
           simpl. by rewrite (left_id_L ∅ (∪)).
      * exists []. split; [by rewrite app_nil_r|]. apply sublist_nil_l.
Qed.

Lemma media_output_items_served (fuel : nat) (w : S) :
  ∀ it, it ∈ all_items (final (fetch_all_media_items get fuel w)) →
        it ∈ items_served (trace (fetch_all_media_items get fuel w)).
Proof.
  unfold fetch_all_media_items.
  destruct (media_loop_served fuel w media_start)
    as (_ & emitted & -> & Hsub).
  simpl. intros it Hit. by eapply elem_of_sublist.
Qed.

(** X14. The primary paginator loses no id and invents none: the ids of the
    items it returns are exactly the ids on the 200 responses it
    received, and the items are a subsequence of the served ones, in
    the order in which they were served. *)
Theorem media_output_covers_served (fuel : nat) (w : S) :
  list_to_set (item_id <$> all_items (final (fetch_all_media_items get fuel w)))
    = ids_served (trace (fetch_all_media_items get fuel w)) ∧
  all_items (final (fetch_all_media_items get fuel w))
    `sublist_of` items_served (trace (fetch_all_media_items get fuel w)).
Proof.
  unfold fetch_all_media_items.
  destruct (media_loop_served fuel w media_start)
    as (Hseen & emitted & Hitems & Hsub).
  destruct (media_loop_inv get fuel w media_start media_start_inv)
    as (_ & Hinv & _).
  split.
  - rewrite <- Hinv, Hseen. simpl. apply (right_id_L ∅ (∪)).
  - by rewrite Hitems.
Qed.

Lemma posts_loop_stable (fuel : nat) :
  ∀ w st fuel',
    finished (posts_loop get fuel w st) = true → (fuel ≤ fuel')%nat →
    posts_loop get fuel' w st = posts_loop get fuel w st.
Proof.
  induction fuel as [|fuel IH]; intros w st fuel' Hfin Hle; [done|].
  destruct fuel' as [|fuel']; [lia|]. simpl in *.
  destruct (get w POSTS_API _ _) as [r w'].
  destruct (posts_body r st) as [st'|st']; [|done].
  simpl in Hfin. rewrite (IH w' st' fuel'); [done|done|lia].
Qed.

Lemma posts_loop_terminates (N : nat) :
  bounded_pages get N →
  ∀ fuel w st,
    (Z.to_nat (Z.of_nat N + 1 - q_page_num st) < fuel)%nat →
    finished (posts_loop get fuel w st) = true.
Proof.
  intros HN. induction fuel as [|fuel IH]; intros w st Hfuel; [lia|].
  simpl. specialize (HN w (q_page_num st) posts_per_page).
  destruct (get w POSTS_API _ _) as [r w'].
  destruct (posts_body r st) as [st'|st'] eqn:Hb; [|done]. simpl.
  apply posts_body_continue in Hb as (data & -> & Hne & ->).
  apply IH. simpl.
  assert (q_page_num st ≤ Z.of_nat N).
  { destruct (decide (Z.of_nat N < q_page_num st)) as [Hlt|]; [|lia].
    apply HN in Hlt. unfold served_page in Hlt. simpl in Hlt.
    by destruct data. }
  lia.
Qed.

(** X15. When the posts endpoint serves no batch beyond page [N], the
    secondary paginator leaves its loop within [N + 1] requests, and
    more fuel does not change the run. *)
Theorem posts_termination (N : nat) :
  bounded_pages get N →
  ∀ w fuel, (N + 1 ≤ fuel)%nat →
    finished (fetch_all_posts get fuel w) = true ∧
    fetch_all_posts get fuel w = fetch_all_posts get (N + 1) w.
Proof.
  intros HN w fuel Hfuel. unfold fetch_all_posts.
  assert (finished (posts_loop get (N + 1) w posts_start) = true) as Hfin.
  { apply (posts_loop_terminates N HN). simpl. lia. }
  by rewrite (posts_loop_stable _ _ _ fuel Hfin Hfuel).
Qed.


Lemma media_downloads_inv (items : list item) (url date_str : string) :
  Download url date_str ∈ media_downloads items →
  ∃ it, it ∈ items ∧ item_source_url it = Some url ∧ url ≠ ""%string ∧
        date_str = or_str (item_date it) "".
Proof.
  unfold media_downloads.
  intros (it & Hit & Hin)%list_elem_of_In%in_flat_map.
  destruct (item_source_url it) as [u|] eqn:Hu; [|by destruct Hin].
  destruct (String.eqb_spec u ""); [by destruct Hin|].
  destruct Hin as [[= <- <-]|[]].
  exists it. split_and!; [|done..]. by apply list_elem_of_In.
Qed.

(** X17. [main] downloads nothing the site did not list: in the primary
    branch every downloaded URL is the non-empty [source_url] of an item
    served by the media endpoint, with that item's date or the empty
    string; in the fallback branch it is the normalized [src] of an
    image of a post served by the posts endpoint, with that post's date
    or [unknown-date]. *)
Theorem main_downloads_provenance (SITE_URL : string)
    (img_srcs : string → list string) (fuel : nat) (w : S)
    (tr : list event) (url date_str : string) :
  main get SITE_URL img_srcs fuel w = Some tr →
  Download url date_str ∈ tr →
  (∃ it,
     it ∈ items_served (trace (fetch_all_media_items get fuel w)) ∧
     item_source_url it = Some url ∧ url ≠ ""%string ∧
     date_str = or_str (item_date it) "") ∨
  (all_items (final (fetch_all_media_items get fuel w)) = [] ∧
   ∃ post src,
     post ∈ items_served
              (trace (fetch_all_posts get fuel
                        (world (fetch_all_media_items get fuel w)))) ∧
     src ∈ img_srcs (item_rendered post) ∧
     url = resolve_img_url SITE_URL src ∧
     date_str = or_str (item_date post) "unknown-date").
Proof.
  unfold main.
  destruct (finished (fetch_all_media_items get fuel w)); [|done]. cbv zeta.
  pose proof (media_output_items_served fuel w) as Hserved.
  destruct (all_items (final (fetch_all_media_items get fuel w)))
    as [|it0 items] eqn:Hitems.
  - destruct (finished (fetch_all_posts get fuel _)); [|done].
    intros [= <-] Hin. right. split; [done|].
    apply elem_of_cons in Hin as [|Hin]; [done|].
    apply elem_of_app in Hin as [(p & n & ?)%elem_of_requests|Hin]; [done|].
    apply elem_of_cons in Hin as [|Hin]; [done|].
    apply elem_of_app in Hin as [(p & n & ?)%elem_of_requests|Hin]; [done|].
    apply list_elem_of_fmap in Hin as ([u d] & [= -> ->] & Hin).
    unfold parse_images_from_posts in Hin.
    apply list_elem_of_In, in_flat_map in Hin as (post & Hpost & Hin).
    apply in_map_iff in Hin as (src & [= <- <-] & Hsrc).
    exists post, src. split_and!; [|by apply list_elem_of_In|done..].
    apply list_elem_of_In in Hpost.
    destruct (posts_loop_spec get fuel
                (world (fetch_all_media_items get fuel w)) posts_start)
      as (Hposts & _).
    unfold fetch_all_posts in *. by rewrite Hposts in Hpost.
  - intros <-%(inj Some) Hin. left.
    apply elem_of_cons in Hin as [|Hin]; [done|].
    apply elem_of_app in Hin as [(p & n & ?)%elem_of_requests|Hin]; [done|].
    apply media_downloads_inv in Hin as (it & Hit & Hu & Hne & Hd).
    exists it. split_and!; [|done..]. by apply Hserved.
Qed.

End MorePaginators.

(** ** The further properties at concrete inputs *)

Lemma download_filename_safe_witness :
  download_filename "https://site.test/uploads/" ≠ ""%string.
Proof.
  apply (download_filename_safe "https://site.test/uploads/").
  discriminate.
Defined.

Lemma media_pages_in_turn_witness :
  3 = 1 + Z.of_nat
            (length
               (filter (λ x, served_page x = true)
                  [Exchange 1 100 (Reply 400 []);
                   Exchange 1 50 (Reply 400 []);
                   Exchange 1 25
                     (Reply 200 [with_id 1; with_id 2;
                                 without_id "https://cdn.test/a.png"]);
                   Exchange 2 25
                     (Reply 200 [with_id 2; with_id 3;
                                 without_id "https://cdn.test/b.png"])])).
Proof.
  apply (media_pages_in_turn small_get 9 tt _ []
           (Exchange 3 25 (Reply 200 [with_id 3]))).
  reflexivity.
Defined.


Lemma repeating_get_bounded_pages : bounded_pages repeating_get 2.
Proof.
  intros [] p n Hp. unfold served_page. simpl.
  destruct (Z.leb_spec p 2); [lia|done].
Qed.

Lemma posts_termination_witness :
  finished (fetch_all_posts repeating_get 5 tt) = true.
Proof.
  apply (posts_termination repeating_get 2 repeating_get_bounded_pages tt 5).
  simpl. lia.
Defined.



Lemma main_downloads_provenance_witness :
  (∃ it,
     it ∈ items_served (trace (fetch_all_media_items repeating_get 3 tt)) ∧
     item_source_url it = Some "https://site.test/media/x.png"%string ∧
     "https://site.test/media/x.png"%string ≠ ""%string ∧
     "2024-01-15T10:12:30"%string = or_str (item_date it) "") ∨
  (all_items (final (fetch_all_media_items repeating_get 3 tt)) = [] ∧
   ∃ post src,
     post ∈ items_served
              (trace (fetch_all_posts repeating_get 3
                        (world (fetch_all_media_items repeating_get 3 tt)))) ∧
     src ∈ one_img (item_rendered post) ∧
     "https://site.test/media/x.png"%string
       = resolve_img_url "https://site.test" src ∧
     "2024-01-15T10:12:30"%string = or_str (item_date post) "unknown-date").
Proof.
  apply (main_downloads_provenance repeating_get "https://site.test" one_img
           3 tt
           [Enter MEDIA_API; Request MEDIA_API 1 100;
            Enter POSTS_API; Request POSTS_API 1 20;
            Request POSTS_API 2 20; Request POSTS_API 3 20;
            Download "https://site.test/media/x.png" "2024-01-15T10:12:30";
            Download "https://site.test/media/x.png" "2024-01-15T10:12:30"]).
  - reflexivity.
  - do 6 right. left.
Defined.

(** ** More on the local file name, the bucket and the order of events *)

Lemma is_word_valid (c : ascii) : is_word c = true → c ∉ invalid_chars.
Proof.
  intros Hw Hin. unfold invalid_chars in Hin.
  rewrite !elem_of_cons, elem_of_nil in Hin.
  destruct Hin as [->|[->|[->|[->|[->|[->|[->|[->|[->|[]]]]]]]]]];
    by vm_compute in Hw.
Qed.

Lemma sub_nonword_word (s : list ascii) :
  ∀ in_run c, c ∈ sub_nonword in_run s → is_word c = true.
Proof.
  induction s as [|x s IH]; intros in_run c; simpl;
    [by intros ?%elem_of_nil|].
  destruct (is_word x) eqn:Hx.
  - intros [->|Hc]%elem_of_cons; [done|]. by eapply IH.
  - destruct in_run; [by apply IH|].
    intros [->|Hc]%elem_of_cons; [done|]. by eapply IH.
Qed.

(** X4. When the path of the URL has no last segment (it is empty or ends
    with a slash), the file is named after the whole URL with every run
    of non-word characters turned into one underscore: the name holds
    word characters only and cleaning changes nothing in it. *)
Theorem download_filename_fallback (url : string) :
  basename (u_path (urlparse (chars url) [])) = [] →
  download_filename url = str (sub_nonword false (chars url)) ∧
  (∀ c, c ∈ chars (download_filename url) → is_word c = true).
Proof.
  intros Hb.
  assert (download_filename url = str (sub_nonword false (chars url))) as ->.
  { unfold download_filename. rewrite Hb. apply chars_inj.
    rewrite chars_clean_filename, chars_str.
    rewrite <- (list_fmap_id (sub_nonword false (chars url))) at 2.
    apply list_fmap_ext. intros i c Hc%list_elem_of_lookup_2.
    apply sub_nonword_word, is_word_valid, is_invalid_false in Hc.
    by rewrite Hc. }
  split; [done|]. rewrite chars_str. apply sub_nonword_word.
Qed.

Lemma download_filename_fallback_witness :
  download_filename "https://site.test/uploads/"
    = str (sub_nonword false (chars "https://site.test/uploads/")).
Proof.
  apply (download_filename_fallback "https://site.test/uploads/").
  reflexivity.
Defined.

(** X11. A date-only timestamp [YYYY-MM-DD] of a year from 1000 to 9999
    is its own bucket exactly when it is a date of the calendar, leap
    years included; any other one falls into [unknown-date]. *)
Theorem date_only_timestamps (dt : datetime) :
  1000 ≤ year dt ≤ 9999 → 0 ≤ month dt ≤ 99 → 0 ≤ day dt ≤ 99 →
  get_date_subfolder (PyStr (strftime_Ymd dt))
    = Ok (if valid_date (year dt) (month dt) (day dt)
          then strftime_Ymd dt else "unknown-date"%string).
Proof.
  intros [Hy1 Hy2] Hm Hd.
  assert (0 ≤ year dt ≤ 9999) as Hy by lia.
  rewrite get_date_subfolder_str, remove_char_strftime.
  unfold strftime_Ymd at 1. rewrite chars_str, (year_digits_pad4 _ Hy1).
  destruct (valid_date _ _ _) eqn:Hv.
  - by rewrite (parse_isoformat_formatted _ _ _ Hv).
  - unfold parse_isoformat, parse_isoformat_date.
    rewrite (parse_pad4 _ _ Hy). cbn -[parse_digits pad2].
    rewrite (parse_pad2 _ _ Hm). cbn -[parse_digits pad2].
    rewrite <- (app_nil_r (pad2 (day dt))), (parse_pad2 _ [] Hd). cbn.
    by rewrite Hv.
Qed.

Lemma date_only_timestamps_witness :
  get_date_subfolder (PyStr (strftime_Ymd (DateTime 2023 2 29 0 0 0 0 None)))
    = Ok "unknown-date"%string.
Proof.
  apply (date_only_timestamps (DateTime 2023 2 29 0 0 0 0 None));
    simpl; lia.
Defined.

Lemma downloads_suffix (A B pre post : list event) (x : event) :
  (∀ e, e ∈ A → ∀ u d, e ≠ Download u d) →
  (∃ u d, x = Download u d) →
  A ++ B = pre ++ x :: post → ∀ e, e ∈ post → e ∈ B.
Proof.
  intros HA (u & d & ->). revert pre.
  induction A as [|a A IH]; intros pre Heq e He; simpl in Heq.
  - rewrite Heq. apply elem_of_app. right. by right.
  - destruct pre as [|b pre]; simpl in Heq; injection Heq as -> Heq.
    + exfalso. apply (HA (Download u d) ltac:(left) u d). done.
    + apply (IH (λ e' He', HA e' (list_elem_of_further _ _ _ He')) pre Heq e He).
Qed.

Section Order.

Context {S : Type}.
Variable get : S → api → Z → Z → response * S.

(** X18. [main] downloads only once it has stopped enumerating: after the
    first call of [download_file] the trace holds nothing but such
    calls, no request and no entry of a paginator. *)
Theorem main_downloads_last (SITE_URL : string)
    (img_srcs : string → list string) (fuel : nat) (w : S)
    (tr pre post : list event) (url date_str : string) :
  main get SITE_URL img_srcs fuel w = Some tr →
  tr = pre ++ Download url date_str :: post →
  ∀ e, e ∈ post → ∃ u d, e = Download u d.
Proof.
  unfold main.
  destruct (finished (fetch_all_media_items get fuel w)); [|done]. cbv zeta.
  destruct (all_items (final (fetch_all_media_items get fuel w)))
    as [|it0 items].
  - destruct (finished (fetch_all_posts get fuel _)); [|done].
    intros <-%(inj Some) Heq e He.
    rewrite (app_comm_cons _ _ (Enter POSTS_API)), app_assoc in Heq.
    eapply downloads_suffix in Heq; [|clear|by eauto|exact He].
    + by eapply elem_of_post_downloads.
    + intros e' [He'|He']%elem_of_app u d.
      * apply elem_of_cons in He' as [->|He']; [done|].
        apply elem_of_requests in He' as (p & n & ->). done.
      * apply elem_of_cons in He' as [->|He']; [done|].
        apply elem_of_requests in He' as (p & n & ->). done.
  - intros <-%(inj Some) Heq e He.
    eapply downloads_suffix in Heq; [|clear|by eauto|exact He].
    + by eapply elem_of_media_downloads.
    + intros e' He' u d.
      apply elem_of_cons in He' as [->|He']; [done|].
      apply elem_of_requests in He' as (p & n & ->). done.
Qed.

End Order.

Lemma main_downloads_last_witness :
  ∃ u d,
    Download "https://site.test/media/x.png" "2024-01-15T10:12:30"
      = Download u d.
Proof.
  apply (main_downloads_last repeating_get "https://site.test" one_img 3 tt
           [Enter MEDIA_API; Request MEDIA_API 1 100;
            Enter POSTS_API; Request POSTS_API 1 20;
            Request POSTS_API 2 20; Request POSTS_API 3 20;
            Download "https://site.test/media/x.png" "2024-01-15T10:12:30";
            Download "https://site.test/media/x.png" "2024-01-15T10:12:30"]
           [Enter MEDIA_API; Request MEDIA_API 1 100;
            Enter POSTS_API; Request POSTS_API 1 20;
            Request POSTS_API 2 20; Request POSTS_API 3 20]
           [Download "https://site.test/media/x.png" "2024-01-15T10:12:30"]
           "https://site.test/media/x.png" "2024-01-15T10:12:30").
  - reflexivity.
  - reflexivity.
  - left.
Defined.
